(* ========================================================================= *)
(* httpclient: a shallow embedding of the request-execution pipeline         *)
(*                                                                           *)
(*   retry.go        RetryPolicy, ShouldRetry, ParseRetryAfter               *)
(*   error.go        ErrorKind, Error, IsRetryable                           *)
(*   ratelimit.go    RateLimiter (token bucket), Wait, refill                *)
(*   middleware.go   Middleware, RoundTripFunc                               *)
(*   client.go       Client, doWithOptions, waitForRetry, wrapError          *)
(*   request.go      requestConfig, RequestOption                            *)
(*                                                                           *)
(* Go values are modelled as the code has them: int and time.Duration as Z   *)
(* with the int64 wrap-around written out, []byte as list Byte.byte, string  *)
(* as String.string (a Go string is a byte sequence), http.Header as a gmap  *)
(* from canonical keys to value lists, float64 as a primitive float.         *)
(* ========================================================================= *)

From stdpp Require Import base gmap strings list.
From Stdlib Require Import ZArith Lia Floats.
From Stdlib Require Import Ascii.

Local Set Warnings "-register-all".
Local Open Scope Z_scope.

(* ------------------------------------------------------------------------- *)
(* Go integers                                                               *)
(* ------------------------------------------------------------------------- *)

Module GoInt.

(** Two's-complement reduction of an integer to int64 (Go's int on 64-bit
    targets and time.Duration). *)
Definition wrap64 (z : Z) : Z :=
  let m := z mod 2 ^ 64 in
  if m >=? 2 ^ 63 then m - 2 ^ 64 else m.

(** uint64 arithmetic reduction. *)
Definition wrapU64 (z : Z) : Z := z mod 2 ^ 64.

End GoInt.

(* ------------------------------------------------------------------------- *)
(* strconv.Atoi (the part ParseRetryAfter relies on)                         *)
(* ------------------------------------------------------------------------- *)

Module Strconv.
Import GoInt.

Definition byte_of (c : ascii) : Z := Z.of_nat (nat_of_ascii c).

(** `ch -= '0'; if ch > 9`: the byte subtraction wraps, so every byte outside
    '0'..'9' is rejected. *)
Definition dec_digit (c : ascii) : option Z :=
  let d := (byte_of c - 48) mod 256 in
  if d >? 9 then None else Some d.

(** The digit classification of ParseUint: '0'..'9' give 0..9, letters give
    lower(c) - 'a' + 10, anything else is a syntax error. *)
Definition parse_digit (c : ascii) : option Z :=
  let b := byte_of c in
  let lower := Z.lor b 32 in
  if (48 <=? b) && (b <=? 57) then Some (b - 48)
  else if (97 <=? lower) && (lower <=? 122) then Some (lower - 97 + 10)
  else None.

(** Outcome of the strconv parsers: a value, a syntax error or a range
    error (which carries the clamped value Go returns alongside it). *)
Inductive NumResult :=
| NumOk (v : Z)
| NumSyntax
| NumRange (clamped : Z).

(** The fast-path loop of Atoi: `n = n*10 + int(ch)`; with fewer than 19
    bytes the value stays below 10^18 and cannot wrap. *)
Fixpoint atoi_fast_loop (s : string) (n : Z) : option Z :=
  match s with
  | EmptyString => Some n
  | String c s' =>
      match dec_digit c with
      | Some d => atoi_fast_loop s' (n * 10 + d)
      | None => None
      end
  end.

(** ParseUint(s, 10, 64) digit loop, with its cutoff and overflow checks. *)
Fixpoint parse_uint_loop (s : string) (n : Z) : NumResult :=
  let cutoff := (2 ^ 64 - 1) / 10 + 1 in
  let maxVal := 2 ^ 64 - 1 in
  match s with
  | EmptyString => NumOk n
  | String c s' =>
      match parse_digit c with
      | None => NumSyntax
      | Some d =>
          if d >=? 10 then NumSyntax
          else if n >=? cutoff then NumRange maxVal
          else
            let n' := wrapU64 (n * 10) in
            let n1 := wrapU64 (n' + d) in
            if (n1 <? n') || (n1 >? maxVal) then NumRange maxVal
            else parse_uint_loop s' n1
      end
  end.

Definition ParseUint10 (s : string) : NumResult :=
  match s with
  | EmptyString => NumSyntax
  | _ => parse_uint_loop s 0
  end.

(** ParseInt(s, 10, 0) on a 64-bit target. *)
Definition ParseInt10 (s0 : string) : NumResult :=
  match s0 with
  | EmptyString => NumSyntax
  | String c rest =>
      let '(neg, s) :=
        if Ascii.eqb c "+"%char then (false, rest)
        else if Ascii.eqb c "-"%char then (true, rest)
        else (false, s0) in
      match ParseUint10 s with
      | NumSyntax => NumSyntax
      | r =>
          let un := match r with NumOk v => v | NumRange v => v | NumSyntax => 0 end in
          let cutoff := 2 ^ 63 in
          if negb neg && (un >=? cutoff) then NumRange (cutoff - 1)
          else if neg && (un >? cutoff) then NumRange (- cutoff)
          else match r with
               | NumOk _ => NumOk (if neg then - un else un)
               | _ => NumRange un
               end
      end
  end.

(** strconv.Atoi: the fast path for 1..18 bytes, ParseInt otherwise.
    [None] stands for a non-nil error. *)
Definition Atoi (s0 : string) : option Z :=
  let sLen := String.length s0 in
  if (0 <? sLen)%nat && (sLen <? 19)%nat then
    match s0 with
    | EmptyString => None
    | String c rest =>
        let signed := Ascii.eqb c "-"%char || Ascii.eqb c "+"%char in
        let s := if signed then rest else s0 in
        if signed && (String.length s <? 1)%nat then None
        else
          match atoi_fast_loop s 0 with
          | None => None
          | Some n => Some (if Ascii.eqb c "-"%char then - n else n)
          end
    end
  else
    match ParseInt10 s0 with
    | NumOk v => Some v
    | _ => None
    end.

End Strconv.

(* ------------------------------------------------------------------------- *)
(* http.Header                                                               *)
(* ------------------------------------------------------------------------- *)

Module Hdr.
Import Strconv.

(** textproto's validHeaderFieldByte: the RFC 7230 token characters. *)
Definition valid_field_byte (c : ascii) : bool :=
  let b := byte_of c in
  ((48 <=? b) && (b <=? 57)) || ((65 <=? b) && (b <=? 90)) ||
  ((97 <=? b) && (b <=? 122)) ||
  bool_decide (c ∈ ["!"; "#"; "$"; "%"; "&"; "'"; "*"; "+"; "-"; "."; "^"; "_"; "`"; "|"; "~"]%char).

Fixpoint canon_loop (upper : bool) (s : string) : string :=
  match s with
  | EmptyString => EmptyString
  | String c s' =>
      let b := byte_of c in
      let c' :=
        if upper && (97 <=? b) && (b <=? 122) then ascii_of_nat (Z.to_nat (b - 32))
        else if negb upper && (65 <=? b) && (b <=? 90) then ascii_of_nat (Z.to_nat (b + 32))
        else c in
      String c' (canon_loop (Ascii.eqb c' "-"%char) s')
  end.

Fixpoint all_valid (s : string) : bool :=
  match s with
  | EmptyString => true
  | String c s' => valid_field_byte c && all_valid s'
  end.

(** CanonicalMIMEHeaderKey: keys with a byte outside the token set are
    returned unchanged; otherwise the first letter and every letter after a
    hyphen are upper-cased and the others lower-cased. *)
Definition CanonicalMIMEHeaderKey (s : string) : string :=
  if all_valid s then canon_loop true s else s.

Definition Header := gmap string (list string).

(** Header.Get: the first value stored under the canonical key, or "". *)
Definition Get (h : Header) (key : string) : string :=
  match h !! CanonicalMIMEHeaderKey key with
  | Some (v :: _) => v
  | _ => ""
  end.

(** Header.Set replaces every value of the canonical key. *)
Definition Set_ (h : Header) (key value : string) : Header :=
  <[CanonicalMIMEHeaderKey key := [value]]> h.

(** Header.Add appends to the values of the canonical key. *)
Definition Add (h : Header) (key value : string) : Header :=
  let k := CanonicalMIMEHeaderKey key in
  <[k := default [] (h !! k) ++ [value]]> h.

End Hdr.

Export Hdr (Header).

(* ------------------------------------------------------------------------- *)
(* retry.go                                                                  *)
(* ------------------------------------------------------------------------- *)

Module Retry.
Import GoInt.

(** RetryPolicy. Durations are int64 nanoseconds; Multiplier and Jitter are
    float64. *)
Record RetryPolicy := {
  MaxAttempts : Z;
  InitialDelay : Z;
  MaxDelay : Z;
  Multiplier : float;
  Jitter : float
}.

Definition Millisecond : Z := 1000000.
Definition Second : Z := 1000000000.

Definition DefaultRetryPolicy : RetryPolicy := {|
  MaxAttempts := 3;
  InitialDelay := 500 * Millisecond;
  MaxDelay := 30 * Second;
  Multiplier := 2%float;
  Jitter := 0x1.999999999999ap-4%float  (* the float64 nearest 0.1 *)
|}.

(** NoRetry: the zero values for every field but MaxAttempts. *)
Definition NoRetry : RetryPolicy := {|
  MaxAttempts := 1;
  InitialDelay := 0;
  MaxDelay := 0;
  Multiplier := 0%float;
  Jitter := 0%float
|}.

(** ShouldRetry ignores its receiver: the retryable set is the fixed switch
    over 408, 429, 502, 503 and 504. *)
Definition ShouldRetry (p : RetryPolicy) (statusCode : Z) : bool :=
  match statusCode with
  | 408 | 429 | 502 | 503 | 504 => true
  | _ => false
  end.

(** ParseRetryAfter: `time.Duration(seconds) * time.Second`, an int64
    multiplication. *)
Definition ParseRetryAfter (value : string) : Z :=
  match value with
  | EmptyString => 0
  | _ =>
      match Strconv.Atoi value with
      | None => 0
      | Some seconds => wrap64 (seconds * Second)
      end
  end.

End Retry.

(* ------------------------------------------------------------------------- *)
(* error.go                                                                  *)
(* ------------------------------------------------------------------------- *)

Module Errors.

Inductive ErrorKind :=
| ErrKindUnknown
| ErrKindTimeout
| ErrKindNetwork
| ErrKindHTTP
| ErrKindParse
| ErrKindRateLimit.

Definition ErrorKind_eqb (a b : ErrorKind) : bool :=
  match a, b with
  | ErrKindUnknown, ErrKindUnknown | ErrKindTimeout, ErrKindTimeout
  | ErrKindNetwork, ErrKindNetwork | ErrKindHTTP, ErrKindHTTP
  | ErrKindParse, ErrKindParse | ErrKindRateLimit, ErrKindRateLimit => true
  | _, _ => false
  end.

(** The httpclient.Error struct; its Err field holds a Go error, so the
    record is parameterised by the error type and tied below. *)
Record ErrorOf (E : Type) := mkError {
  Kind : ErrorKind;
  StatusCode : Z;
  Status : string;
  Body : list Byte.byte;
  Headers : Header;
  Method : string;
  URL : string;
  Attempts : Z;
  Err : option E
}.
Arguments mkError {E}.
Arguments Kind {E}. Arguments StatusCode {E}. Arguments Status {E}.
Arguments Body {E}. Arguments Headers {E}. Arguments Method {E}.
Arguments URL {E}. Arguments Attempts {E}. Arguments Err {E}.

(** The errors encoding/json's Unmarshal returns. *)
Inductive JSONError :=
| JSONSyntaxError (offset : Z) (msg : string)
| JSONUnmarshalTypeError (value : string) (type_ : string)
| JSONInvalidUnmarshalError (type_ : string).

(** Go error values that reach the executor: the two context sentinels,
    leaf errors, wrapping errors (url.Error, fmt.Errorf with %w), the
    decoder's errors and *httpclient.Error. *)
Inductive GoErr :=
| ErrCanceled
| ErrDeadlineExceeded
| ErrText (msg : string)
| ErrWrap (msg : string) (inner : GoErr)
| ErrJSON (e : JSONError)
| ErrClient (e : ErrorOf GoErr).

Definition Error := ErrorOf GoErr.

(** A zero-valued Error but for the given fields. *)
Definition zeroError (k : ErrorKind) (method url : string) (err : option GoErr) : Error :=
  mkError k 0 "" [] ∅ method url 0 err.

(** IsRetryable. *)
Definition IsRetryable (e : Error) : bool :=
  match Kind e with
  | ErrKindTimeout | ErrKindNetwork => true
  | ErrKindHTTP =>
      match StatusCode e with
      | 408 | 429 | 502 | 503 | 504 => true
      | _ => false
      end
  | _ => false
  end.

(** errors.Is against the two context sentinels, following Unwrap. *)
Fixpoint IsDeadlineExceeded (e : GoErr) : bool :=
  match e with
  | ErrDeadlineExceeded => true
  | ErrWrap _ inner => IsDeadlineExceeded inner
  | ErrClient r => match Err r with Some i => IsDeadlineExceeded i | None => false end
  | _ => false
  end.

Fixpoint IsCanceled (e : GoErr) : bool :=
  match e with
  | ErrCanceled => true
  | ErrWrap _ inner => IsCanceled inner
  | ErrClient r => match Err r with Some i => IsCanceled i | None => false end
  | _ => false
  end.

End Errors.

(* ------------------------------------------------------------------------- *)
(* A state monad for the executor                                            *)
(* ------------------------------------------------------------------------- *)

Module StM.

Definition StM (S A : Type) := S -> A * S.

Definition ret {S A} (a : A) : StM S A := fun s => (a, s).

Definition bind {S A B} (m : StM S A) (k : A -> StM S B) : StM S B :=
  fun s => let '(a, s') := m s in k a s'.

End StM.

Notation "x <- m ;; k" := (StM.bind m (fun x => k))
  (at level 64, m at next level, right associativity).
Notation "m ;;; k" := (StM.bind m (fun _ => k))
  (at level 64, right associativity).

(* ------------------------------------------------------------------------- *)
(* client.go, request.go, middleware.go: the request executor                *)
(* ------------------------------------------------------------------------- *)

Module Exec.
Import GoInt Errors Retry StM.

(** context.Context as far as the executor uses it: the caller's context
    (an identity and its own deadline, if any), or one derived by
    context.WithTimeout / WithDeadline. *)
Inductive Ctx :=
| CtxCaller (id : nat) (deadline : option Z)
| CtxWithDeadline (parent : Ctx) (deadline : Z).

(** ctx.Deadline(): the earliest deadline along the chain. *)
Fixpoint Deadline (c : Ctx) : option Z :=
  match c with
  | CtxCaller _ d => d
  | CtxWithDeadline p d =>
      match Deadline p with
      | Some pd => Some (Z.min pd d)
      | None => Some d
      end
  end.

(** The *http.Request the executor builds; the body is the bytes.Reader over
    the encoded body bytes, nil when there is no body. *)
Record Request := {
  rq_Method : string;
  rq_URL : string;
  rq_Header : Header;
  rq_Body : option (list Byte.byte);
  rq_Context : Ctx
}.

(** The *http.Response a transport returns; [hr_Body] is what
    io.ReadAll(resp.Body) yields. *)
Record HTTPResponse := {
  hr_StatusCode : Z;
  hr_Status : string;
  hr_Header : Header;
  hr_Body : list Byte.byte + GoErr
}.

(** httpclient.Response. *)
Record Response := {
  resp_StatusCode : Z;
  resp_Status : string;
  resp_Headers : Header;
  resp_Body : list Byte.byte
}.

(** requestConfig and the request options. *)
Record requestConfig := {
  cfg_timeout : Z;
  cfg_headers : Header;
  cfg_query : gmap string (list string);
  cfg_contentType : string
}.

Definition newRequestConfig : requestConfig := {|
  cfg_timeout := 0; cfg_headers := ∅; cfg_query := ∅; cfg_contentType := "" |}.

Definition RequestOption := requestConfig -> requestConfig.

Definition WithRequestTimeout (d : Z) : RequestOption := fun cfg =>
  {| cfg_timeout := d; cfg_headers := cfg_headers cfg;
     cfg_query := cfg_query cfg; cfg_contentType := cfg_contentType cfg |}.

Definition WithRequestHeader (key value : string) : RequestOption := fun cfg =>
  {| cfg_timeout := cfg_timeout cfg; cfg_headers := Hdr.Set_ (cfg_headers cfg) key value;
     cfg_query := cfg_query cfg; cfg_contentType := cfg_contentType cfg |}.

(** url.Values.Add: no key canonicalisation. *)
Definition WithQuery (key value : string) : RequestOption := fun cfg =>
  {| cfg_timeout := cfg_timeout cfg; cfg_headers := cfg_headers cfg;
     cfg_query := <[key := default [] (cfg_query cfg !! key) ++ [value]]> (cfg_query cfg);
     cfg_contentType := cfg_contentType cfg |}.

Definition WithContentType (contentType : string) : RequestOption := fun cfg =>
  {| cfg_timeout := cfg_timeout cfg; cfg_headers := cfg_headers cfg;
     cfg_query := cfg_query cfg; cfg_contentType := contentType |}.

(** Ghost events: the executor's own observable actions, recorded next to
    the world state so that properties about attempts can be read off a run.
    [EvAttempt] marks `transport(req)` (the request handed to the middleware
    chain), [EvTransport] the innermost call `c.httpClient.Do(r)`. *)
Inductive Event :=
| EvEncode
| EvRateLimit (c : Ctx)
| EvAttempt (attempt : Z) (r : Request)
| EvTransport (r : Request)
| EvWait (c : Ctx) (delay : Z).

Section Executor.

(** The world outside the executor: the server, the clock, the rate
    limiter's bucket, the state of caller-supplied readers and middlewares;
    and the types behind `body any` (by the cases of internal.EncodeBody's
    type switch) and `result any`. *)
Context {W ReaderId FormValues JSONValue Target : Type}.

Definition St : Type := (W * list Event)%type.
Definition M (A : Type) : Type := StM St A.

Definition lift {A} (f : W -> A * W) : M A :=
  fun s => let '(a, w') := f (fst s) in (a, (w', snd s)).

Definition emit (e : Event) : M unit :=
  fun s => (tt, (fst s, snd s ++ [e])).

(** The outcome of a RoundTripFunc: a response or an error. *)
Definition Outcome : Type := (HTTPResponse + GoErr)%type.
Definition RoundTripFunc : Type := Request -> M Outcome.

(** A middleware body: the Go closure's code as a program over its
    observable actions: read or write the world (its own state, shared
    slices, clocks), call `next` with some request and continue with what it
    returned, or return an outcome. A middleware may call `next` any number
    of times, or not at all (short-circuit). *)
Inductive MwProg :=
| MwReturn (o : Outcome)
| MwGet (k : W -> MwProg)
| MwPut (w : W) (k : MwProg)
| MwNext (r : Request) (k : Outcome -> MwProg).

(** Middleware: func(req *http.Request, next RoundTripFunc). The request is
    passed by value; a middleware that edits it passes the edited copy on. *)
Definition Middleware : Type := Request -> MwProg.

(** Running a middleware body against its `next`. *)
Fixpoint runMw (p : MwProg) (next : RoundTripFunc) : M Outcome :=
  match p with
  | MwReturn o => ret o
  | MwGet k => fun s => runMw (k (fst s)) next s
  | MwPut w k => fun s => runMw k next (w, snd s)
  | MwNext r k => o <- next r ;; runMw (k o) next
  end.

(** The collaborators of the executor. Pure library code: json.Marshal,
    url.Values.Encode, json.Unmarshal (its error only), the URL
    c.baseURL.JoinPath(path) with the query merged and rendered by String(),
    and url.Parse's error on that rendering. Effects on the world: time.Now,
    c.httpClient.Do, io.ReadAll on a caller's io.Reader, the rate limiter's
    Wait, RetryPolicy.Backoff (float64 arithmetic over math.Pow and the
    global rand source; its value only feeds waitForRetry) and the select of
    waitForRetry, which returns when the context is done or the timer
    fires. *)
Record Env := {
  jsonMarshal : JSONValue -> list Byte.byte + GoErr;
  formEncode : FormValues -> string;
  jsonUnmarshal : list Byte.byte -> Target -> option JSONError;
  ResolveURL : string -> string -> gmap string (list string) -> string;
  URLParseError : string -> option GoErr;
  Now : W -> Z * W;
  HTTPDo : Request -> W -> Outcome * W;
  ReadAll : ReaderId -> W -> (list Byte.byte + GoErr) * W;
  LimiterWait : Ctx -> W -> option GoErr * W;
  Backoff : RetryPolicy -> Z -> W -> Z * W;
  Sleep : Ctx -> Z -> W -> W
}.

Context (env : Env).

(** Client; httpClient is [HTTPDo env], a non-nil rateLimiter is a bucket
    in the world reached through [LimiterWait env]. *)
Record Client := {
  baseURL : string;
  timeout : Z;
  headers : Header;
  defaultContentType : string;
  retryPolicy : option RetryPolicy;
  rateLimiter : bool;
  middlewares : list Middleware
}.

Inductive BodyValue :=
| BodyBytes (b : list Byte.byte)
| BodyString (s : string)
| BodyIOReader (r : ReaderId)
| BodyForm (v : FormValues)
| BodyOther (v : JSONValue).

Inductive EncodedReader :=
| ReaderBytes (b : list Byte.byte)
| ReaderStream (r : ReaderId).

(** internal.EncodeBody. *)
Definition EncodeBody (body : option BodyValue) : (option EncodedReader * string) + GoErr :=
  match body with
  | None => inl (None, "")
  | Some (BodyBytes v) => inl (Some (ReaderBytes v), "")
  | Some (BodyString v) => inl (Some (ReaderBytes (String.list_byte_of_string v)), "")
  | Some (BodyIOReader v) => inl (Some (ReaderStream v), "")
  | Some (BodyForm v) =>
      inl (Some (ReaderBytes (String.list_byte_of_string (formEncode env v))),
           "application/x-www-form-urlencoded")
  | Some (BodyOther v) =>
      match jsonMarshal env v with
      | inl data => inl (Some (ReaderBytes data), "application/json")
      | inr e => inr e
      end
  end.

(** io.ReadAll on the encoded body. *)
Definition readBody (rd : EncodedReader) : M (list Byte.byte + GoErr) :=
  match rd with
  | ReaderBytes b => ret (inl b)
  | ReaderStream r => lift (ReadAll env r)
  end.

(** http.NewRequestWithContext: "" means GET, the method must be a token,
    the URL must parse. *)
Definition validMethod (m : string) : bool :=
  negb (String.eqb m "") && Hdr.all_valid m.

Definition NewRequestWithContext (ctx : Ctx) (method url : string)
    (body : option (list Byte.byte)) : Request + GoErr :=
  let method := if String.eqb method "" then "GET" else method in
  if negb (validMethod method) then inr (ErrText ("net/http: invalid method " ++ method))
  else match URLParseError env url with
       | Some e => inr e
       | None => inl {| rq_Method := method; rq_URL := url; rq_Header := ∅;
                        rq_Body := body; rq_Context := ctx |}
       end.

(** `for key, values := range src { for _, value := range values {
    dst.Add(key, value) } }` and the same with Set. *)
Definition addAll (src dst : Header) : Header :=
  map_fold (fun k vs acc => foldl (fun a v => Hdr.Add a k v) acc vs) dst src.

Definition setAll (src dst : Header) : Header :=
  map_fold (fun k vs acc => foldl (fun a v => Hdr.Set_ a k v) acc vs) dst src.

Definition withHeader (r : Request) (h : Header) : Request :=
  {| rq_Method := rq_Method r; rq_URL := rq_URL r; rq_Header := h;
     rq_Body := rq_Body r; rq_Context := rq_Context r |}.

(** The headers of one attempt: client defaults, per-request overrides, then
    the Content-Type precedence. *)
Definition attemptHeaders (c : Client) (cfg : requestConfig) (contentType : string)
    (body : option BodyValue) : Header :=
  let h := setAll (cfg_headers cfg) (addAll (headers c) ∅) in
  if negb (String.eqb (cfg_contentType cfg) "") then Hdr.Set_ h "Content-Type" (cfg_contentType cfg)
  else if negb (String.eqb contentType "") then Hdr.Set_ h "Content-Type" contentType
  else if bool_decide (is_Some body) then Hdr.Set_ h "Content-Type" (defaultContentType c)
  else h.

(** The innermost RoundTripFunc, `c.httpClient.Do(r)`. *)
Definition baseTransport : RoundTripFunc :=
  fun r => emit (EvTransport r) ;;; lift (HTTPDo env r).

(** `for i := len(c.middlewares) - 1; i >= 0; i-- { mw := c.middlewares[i];
    next := transport; transport = func(r) { return mw(r, next) } }` *)
Definition buildChain (mws : list Middleware) (transport : RoundTripFunc) : RoundTripFunc :=
  fold_left (fun next mw => fun r => runMw (mw r) next) (rev mws) transport.

(** waitForRetry. *)
Definition waitForRetry (ctx : Ctx) (delay : Z) : M unit :=
  emit (EvWait ctx delay) ;;; lift (fun w => (tt, Sleep env ctx delay w)).

(** wrapError. *)
Definition wrapError (err : GoErr) (method url : string) : GoErr :=
  let kind :=
    if IsDeadlineExceeded err then ErrKindTimeout
    else if IsCanceled err then ErrKindNetwork
    else ErrKindUnknown in
  ErrClient (zeroError kind method url (Some err)).

(** How an iteration of the attempt loop ends: `continue` with the updated
    response and lastErr, or `return`. *)
Inductive Step :=
| StepContinue (response : option Response) (lastErr : option GoErr)
| StepReturn (r : option Response * option GoErr).

(** The retry decision after an HTTP status >= 400. *)
Definition retryHTTP (c : Client) (maxAttempts attempt statusCode : Z) : bool :=
  match retryPolicy c with
  | Some p => (attempt <? maxAttempts) && ShouldRetry p statusCode
  | None => false
  end.

(** The loop body after `resp, err := transport(req)`. *)
Definition handleOutcome (c : Client) (ctx : Ctx) (method url : string)
    (result : option Target) (maxAttempts attempt : Z)
    (response : option Response) (o : Outcome) : M Step :=
  match o with
  | inr err =>
      let lastErr := wrapError err method url in
      match retryPolicy c with
      | Some p =>
          if attempt <? maxAttempts then
            d <- lift (Backoff env p attempt) ;;
            waitForRetry ctx d ;;;
            ret (StepContinue response (Some lastErr))
          else ret (StepReturn (None, Some lastErr))
      | None => ret (StepReturn (None, Some lastErr))
      end
  | inl resp =>
      match hr_Body resp with
      | inr e => ret (StepReturn (None, Some e))
      | inl respBody =>
          let response' := {| resp_StatusCode := hr_StatusCode resp;
                              resp_Status := hr_Status resp;
                              resp_Headers := hr_Header resp;
                              resp_Body := respBody |} in
          if hr_StatusCode resp >=? 400 then
            let lastErr := ErrClient (mkError ErrKindHTTP (hr_StatusCode resp) (hr_Status resp)
                                        respBody (hr_Header resp) method url attempt None) in
            match retryPolicy c with
            | Some p =>
                if retryHTTP c maxAttempts attempt (hr_StatusCode resp) then
                  delay <- lift (Backoff env p attempt) ;;
                  let retryAfter := Hdr.Get (hr_Header resp) "Retry-After" in
                  let delay' :=
                    if String.eqb retryAfter "" then delay
                    else let parsed := ParseRetryAfter retryAfter in
                         if parsed >? 0 then parsed else delay in
                  waitForRetry ctx delay' ;;;
                  ret (StepContinue (Some response') (Some lastErr))
                else ret (StepReturn (Some response', Some lastErr))
            | None => ret (StepReturn (Some response', Some lastErr))
            end
          else
            match result with
            | Some t =>
                if negb (Nat.eqb (length respBody) 0) then
                  match jsonUnmarshal env respBody t with
                  | Some je => ret (StepReturn (Some response', Some (ErrJSON je)))
                  | None => ret (StepReturn (Some response', None))
                  end
                else ret (StepReturn (Some response', None))
            | None => ret (StepReturn (Some response', None))
            end
      end
  end.

(** One iteration of the attempt loop. *)
Definition attemptBody (c : Client) (ctx : Ctx) (method url : string)
    (body : option BodyValue) (result : option Target) (cfg : requestConfig)
    (bodyBytes : option (list Byte.byte)) (contentType : string)
    (maxAttempts attempt : Z) (response : option Response) : M Step :=
  match NewRequestWithContext ctx method url bodyBytes with
  | inr e => ret (StepReturn (None, Some e))
  | inl req0 =>
      let req := withHeader req0 (attemptHeaders c cfg contentType body) in
      emit (EvAttempt attempt req) ;;;
      o <- buildChain (middlewares c) baseTransport req ;;
      handleOutcome c ctx method url result maxAttempts attempt response o
  end.

(** `for attempt := 1; attempt <= maxAttempts; attempt++`, [fuel] counting
    the iterations left; leaving the loop returns (response, lastErr). *)
Fixpoint attemptLoop (c : Client) (ctx : Ctx) (method url : string)
    (body : option BodyValue) (result : option Target) (cfg : requestConfig)
    (bodyBytes : option (list Byte.byte)) (contentType : string)
    (maxAttempts : Z) (fuel : nat) (attempt : Z)
    (response : option Response) (lastErr : option GoErr)
    : M (option Response * option GoErr) :=
  match fuel with
  | O => ret (response, lastErr)
  | S fuel' =>
      st <- attemptBody c ctx method url body result cfg bodyBytes contentType
              maxAttempts attempt response ;;
      match st with
      | StepReturn r => ret r
      | StepContinue response' lastErr' =>
          attemptLoop c ctx method url body result cfg bodyBytes contentType
            maxAttempts fuel' (attempt + 1) response' lastErr'
      end
  end.

Definition maxAttemptsOf (c : Client) : Z :=
  match retryPolicy c with
  | Some p => MaxAttempts p
  | None => 1
  end.

(** What the steps before the attempt loop produce: an early return, or the
    derived context, the options, the URL, the encoded body bytes and the
    encoder's content type. *)
Inductive Prepared :=
| PrepReturn (r : option Response * option GoErr)
| PrepLoop (ctx : Ctx) (cfg : requestConfig) (reqURL : string)
           (bodyBytes : option (list Byte.byte)) (contentType : string).

(** doWithOptions up to the attempt loop: options, URL, body encoding and
    reading, rate limiting, timeout scope. *)
Definition prepare (c : Client) (ctx : Ctx) (method path : string)
    (body : option BodyValue) (opts : list RequestOption) : M Prepared :=
  let cfg := fold_left (fun cfg opt => opt cfg) opts newRequestConfig in
  let reqURL := ResolveURL env (baseURL c) path (cfg_query cfg) in
  emit EvEncode ;;;
  match EncodeBody body with
  | inr e => ret (PrepReturn (None, Some e))
  | inl (bodyReader, contentType) =>
      bb <- match bodyReader with
            | None => ret (inl None)
            | Some rd => r <- readBody rd ;;
                         ret (match r with inl b => inl (Some b) | inr e => inr e end)
            end ;;
      match bb with
      | inr e => ret (PrepReturn (None, Some e))
      | inl bodyBytes =>
          rl <- (if rateLimiter c then emit (EvRateLimit ctx) ;;; lift (LimiterWait env ctx)
                 else ret None) ;;
          match rl with
          | Some e =>
              ret (PrepReturn (None, Some (ErrClient (zeroError ErrKindRateLimit method reqURL (Some e)))))
          | None =>
              ctx' <- (if cfg_timeout cfg >? 0 then
                         now <- lift (Now env) ;; ret (CtxWithDeadline ctx (now + cfg_timeout cfg))
                       else ret ctx) ;;
              ret (PrepLoop ctx' cfg reqURL bodyBytes contentType)
          end
      end
  end.

(** doWithOptions. *)
Definition doWithOptions (c : Client) (ctx : Ctx) (method path : string)
    (body : option BodyValue) (result : option Target) (opts : list RequestOption)
    : M (option Response * option GoErr) :=
  pr <- prepare c ctx method path body opts ;;
  match pr with
  | PrepReturn r => ret r
  | PrepLoop ctx' cfg reqURL bodyBytes contentType =>
      let maxAttempts := maxAttemptsOf c in
      attemptLoop c ctx' method reqURL body result cfg bodyBytes contentType
        maxAttempts (Z.to_nat maxAttempts) 1 None None
  end.

Definition Get (c : Client) (ctx : Ctx) (path : string) (result : option Target)
    (opts : list RequestOption) := doWithOptions c ctx "GET" path None result opts.
Definition Post (c : Client) (ctx : Ctx) (path : string) (body : option BodyValue)
    (result : option Target) (opts : list RequestOption) :=
  doWithOptions c ctx "POST" path body result opts.
Definition Put (c : Client) (ctx : Ctx) (path : string) (body : option BodyValue)
    (result : option Target) (opts : list RequestOption) :=
  doWithOptions c ctx "PUT" path body result opts.
Definition Patch (c : Client) (ctx : Ctx) (path : string) (body : option BodyValue)
    (result : option Target) (opts : list RequestOption) :=
  doWithOptions c ctx "PATCH" path body result opts.
Definition Delete (c : Client) (ctx : Ctx) (path : string) (result : option Target)
    (opts : list RequestOption) := doWithOptions c ctx "DELETE" path None result opts.

End Executor.

End Exec.

(* ------------------------------------------------------------------------- *)
(* ratelimit.go: the token bucket                                            *)
(* ------------------------------------------------------------------------- *)

Module RateLimit.
Import GoInt Errors.

(** float64(i) for an int64 i: correctly rounded, as the conversion is. *)
Definition float_of_int64 (z : Z) : float :=
  if z >=? 0 then PrimFloat.of_uint63 (Uint63.of_Z z)
  else if z =? - 2 ^ 63 then (- (PrimFloat.of_uint63 (Uint63.of_Z (2 ^ 62)) * 2))%float
  else (- PrimFloat.of_uint63 (Uint63.of_Z (- z)))%float.

(** time.Duration(f) for a float64 f, as amd64 converts: truncation toward
    zero, and the integer indefinite value -2^63 for NaN and out-of-range
    values. *)
Definition int64_of_float (x : float) : Z :=
  match Prim2SF x with
  | SpecFloat.S754_zero _ => 0
  | SpecFloat.S754_finite sgn m e =>
      let mag := if e >=? 0 then Z.shiftl (Zpos m) e else Z.shiftr (Zpos m) (- e) in
      let v := if sgn then - mag else mag in
      if (v <? - 2 ^ 63) || (v >? 2 ^ 63 - 1) then - 2 ^ 63 else v
  | _ => - 2 ^ 63
  end.

(** time.Time.Sub: the difference, saturated to the int64 range. *)
Definition sub_sat (a b : Z) : Z := Z.max (- 2 ^ 63) (Z.min (2 ^ 63 - 1) (a - b)).

(** RateLimiter; lastRefill is a reading of the monotonic clock in ns. *)
Record RateLimiter := {
  tokens : float;
  maxTokens : float;
  refillRate : float;
  lastRefill : Z
}.

(** NewRateLimiter(requests, duration), created at time [now]. *)
Definition NewRateLimiter (requests duration now : Z) : RateLimiter := {|
  tokens := float_of_int64 requests;
  maxTokens := float_of_int64 requests;
  refillRate := (float_of_int64 requests / float_of_int64 duration)%float;
  lastRefill := now
|}.

(** refill, with time.Now() = [now]. *)
Definition refill (now : Z) (r : RateLimiter) : RateLimiter :=
  let elapsed := sub_sat now (lastRefill r) in
  let t := (tokens r + float_of_int64 elapsed * refillRate r)%float in
  let t := if PrimFloat.ltb (maxTokens r) t then maxTokens r else t in
  {| tokens := t; maxTokens := maxTokens r; refillRate := refillRate r; lastRefill := now |}.

(** `r.tokens--` *)
Definition debit (r : RateLimiter) : RateLimiter :=
  {| tokens := (tokens r - 1)%float; maxTokens := maxTokens r;
     refillRate := refillRate r; lastRefill := lastRefill r |}.

(** The context Wait selects on: when its Done channel closes (never, for
    [None]) and what ctx.Err() then returns. *)
Record WaitCtx := {
  doneAt : option Z;
  ctxErr : GoErr
}.

(** The select, evaluated at time [evalAt], between ctx.Done() and the timer
    time.NewTimer started at time [start <= evalAt] for [wd] (a non-positive
    duration fires at once). A case already ready at [evalAt] is taken at once,
    otherwise the one that becomes ready first; when both are ready Go picks
    one at random, which [tie] stands for. Returns whether the ctx case is
    taken and when the select returns. *)
Definition selectWait (start evalAt wd : Z) (ctx : WaitCtx) (tie : bool) : bool * Z :=
  let fire := start + Z.max wd 0 in
  match doneAt ctx with
  | None => (false, Z.max evalAt fire)
  | Some d =>
      let t := Z.max evalAt (Z.min d fire) in
      let ctxReady := d <=? t in
      let timerReady := fire <=? t in
      if ctxReady && timerReady then (tie, t) else (ctxReady, t)
  end.

(** What happens in one iteration while the lock is free: the time from
    refill's time.Now() to time.NewTimer, the time from time.NewTimer to
    the evaluation of the select, the time from the select's return to the
    next refill, other callers' use of the bucket, and the random pick of
    the select. *)
Record Tick := {
  timerDelay : Z;
  selectDelay : Z;
  latency : Z;
  others : RateLimiter -> RateLimiter;
  pickCtx : bool
}.

(** This call's own operations on the bucket. *)
Inductive Action :=
| ARefill (now : Z)
| ADebit.

Inductive WaitResult :=
| WaitOk
| WaitErr (e : GoErr)
| WaitPending.

(** Wait's `for` loop, one iteration per select; [WaitPending] when the
    schedule ends with the call still blocked. *)
Fixpoint waitLoop (ticks : list Tick) (ctx : WaitCtx) (now : Z) (r : RateLimiter)
    : WaitResult * RateLimiter * list Action :=
  let r1 := refill now r in
  if PrimFloat.leb 1 (tokens r1) then (WaitOk, debit r1, [ARefill now; ADebit])
  else
    let tokensNeeded := (1 - tokens r1)%float in
    let waitDuration := int64_of_float (tokensNeeded / refillRate r1) in
    match ticks with
    | [] => (WaitPending, r1, [ARefill now])
    | tk :: ticks' =>
        let start := now + timerDelay tk in
        let '(ctxDone, t) := selectWait start (start + selectDelay tk) waitDuration ctx (pickCtx tk) in
        if ctxDone then (WaitErr (ctxErr ctx), r1, [ARefill now])
        else
          let '(res, r', acts) := waitLoop ticks' ctx (t + latency tk) (others tk r1) in
          (res, r', ARefill now :: acts)
    end.

(** Wait(ctx), called at time [now]. *)
Definition Wait (ticks : list Tick) (ctx : WaitCtx) (now : Z) (r : RateLimiter)
    : WaitResult * RateLimiter * list Action :=
  waitLoop ticks ctx now r.

End RateLimit.

(* ------------------------------------------------------------------------- *)
(* Observations on runs of the executor                                      *)
(* ------------------------------------------------------------------------- *)

Module Obs.
Import Errors Retry Exec StM.

Fixpoint count_attempts (l : list Event) : nat :=
  match l with
  | [] => O
  | EvAttempt _ _ :: l' => S (count_attempts l')
  | _ :: l' => count_attempts l'
  end.

Fixpoint count_transport (l : list Event) : nat :=
  match l with
  | [] => O
  | EvTransport _ :: l' => S (count_transport l')
  | _ :: l' => count_transport l'
  end.

(** The log of a computation grows by events satisfying [P]. *)
Definition grows {W A : Type} (P : Event -> Prop) (m : @M W A) : Prop :=
  forall s, exists l, snd (snd (m s)) = snd s ++ l /\ Forall P l.

(** Whether doWithOptions reaches its attempt loop. *)
Definition prepLoops (pr : Prepared) : bool :=
  match pr with
  | PrepLoop _ _ _ _ _ => true
  | PrepReturn _ => false
  end.

(** The options and the URL doWithOptions computes first. *)
Definition cfgOf (opts : list RequestOption) : requestConfig :=
  fold_left (fun cfg opt => opt cfg) opts newRequestConfig.

(** The Response built from an *http.Response whose body read as [b]. *)
Definition toResponse (resp : HTTPResponse) (b : list Byte.byte) : Response := {|
  resp_StatusCode := hr_StatusCode resp;
  resp_Status := hr_Status resp;
  resp_Headers := hr_Header resp;
  resp_Body := b
|}.

(** The HTTP-kind Error of a status >= 400. *)
Definition httpError (resp : HTTPResponse) (b : list Byte.byte) (method url : string)
    (attempts : Z) : GoErr :=
  ErrClient (mkError ErrKindHTTP (hr_StatusCode resp) (hr_Status resp) b (hr_Header resp)
               method url attempts None).

(** The body bytes the attempts must carry, as far as EncodeBody fixes them
    (a caller's io.Reader yields whatever io.ReadAll read from it). *)
Definition bytesFixedBy {ReaderId : Type} (enc : (option (@EncodedReader ReaderId) * string) + GoErr)
    (bb : option (list Byte.byte)) : Prop :=
  match enc with
  | inl (Some (ReaderBytes b), _) => bb = Some b
  | inl (None, _) => bb = None
  | _ => True
  end.

(** What the steps of a run carry: every request handed to the chain holds
    [bb] as its body and [ctx] as its context, every wait runs under [ctx],
    and no further body encoding happens. *)
Definition attemptEvent (bb : option (list Byte.byte)) (ctx : Ctx) (e : Event) : Prop :=
  match e with
  | EvEncode => False
  | EvAttempt _ r => rq_Body r = bb /\ rq_Context r = ctx
  | EvWait c _ => c = ctx
  | _ => True
  end.

Section Mw.
Context {W : Type}.

(** A middleware with logic before and after `next(req)`:
    `pre(req); resp, err := next(req); post(resp, err); return resp, err`. *)
Definition mkMw (pre : Request -> W -> W) (post : Outcome -> W -> W) : @Middleware W :=
  fun r => MwGet (fun w => MwPut (pre r w)
             (MwNext r (fun o => MwGet (fun w' => MwPut (post o w') (MwReturn o))))).

(** A middleware body that hands on only requests carrying [bb]. *)
Fixpoint preservesBody (bb : option (list Byte.byte)) (p : @MwProg W) : Prop :=
  match p with
  | MwReturn _ => True
  | MwGet k => forall w, preservesBody bb (k w)
  | MwPut _ k => preservesBody bb k
  | MwNext r k => rq_Body r = bb /\ forall o, preservesBody bb (k o)
  end.

Definition bodyPreserving (mw : @Middleware W) : Prop :=
  forall r, preservesBody (rq_Body r) (mw r).

(** The same client with another Timeout. *)
Definition with_timeout (c : @Client W) (t : Z) : @Client W := {|
  baseURL := baseURL c; timeout := t; headers := headers c;
  defaultContentType := defaultContentType c; retryPolicy := retryPolicy c;
  rateLimiter := rateLimiter c; middlewares := middlewares c
|}.

End Mw.
End Obs.

(* ------------------------------------------------------------------------- *)
(* error.go and response.go: the classification predicates                   *)
(* ------------------------------------------------------------------------- *)

Module Classify.
Import Errors Exec.

(** Error.IsTimeout and Error.IsNetwork. *)
Definition IsTimeout (e : Error) : bool := ErrorKind_eqb (Kind e) ErrKindTimeout.
Definition IsNetwork (e : Error) : bool := ErrorKind_eqb (Kind e) ErrKindNetwork.

(** Error.IsClientError, Error.IsServerError and Error.IsStatus. *)
Definition IsClientError (e : Error) : bool := (400 <=? StatusCode e) && (StatusCode e <? 500).
Definition IsServerError (e : Error) : bool := (500 <=? StatusCode e) && (StatusCode e <? 600).

Fixpoint IsStatus_loop (sc : Z) (codes : list Z) : bool :=
  match codes with
  | [] => false
  | code :: codes' => if Z.eqb sc code then true else IsStatus_loop sc codes'
  end.

Definition IsStatus (e : Error) (codes : list Z) : bool := IsStatus_loop (StatusCode e) codes.

(** Error.Unwrap. *)
Definition Unwrap (e : Error) : option GoErr := Err e.

(** Response.IsSuccess, Response.IsClientError and Response.IsServerError. *)
Definition Response_IsSuccess (r : Response) : bool :=
  (200 <=? resp_StatusCode r) && (resp_StatusCode r <? 300).
Definition Response_IsClientError (r : Response) : bool :=
  (400 <=? resp_StatusCode r) && (resp_StatusCode r <? 500).
Definition Response_IsServerError (r : Response) : bool :=
  (500 <=? resp_StatusCode r) && (resp_StatusCode r <? 600).

End Classify.

(* ------------------------------------------------------------------------- *)
(* client.go: New and the client options                                     *)
(* ------------------------------------------------------------------------- *)

Module Build.
Import Errors Retry Exec RateLimit.

Definition Version : string := "0.1.0".

(** The *http.Client a Client holds: New's `&http.Client{}` or one given to
    WithHTTPClient. *)
Inductive HTTPClientRef :=
| DefaultHTTPClient
| CustomHTTPClient (id : nat).

Section Build.
Context {W : Type}.

(** The client.go Client struct; baseURL is the string url.Parse accepted,
    nil until WithBaseURL succeeds. *)
Record ClientS := {
  c_baseURL : option string;
  c_httpClient : HTTPClientRef;
  c_timeout : Z;
  c_headers : Header;
  c_defaultContentType : string;
  c_retryPolicy : option RetryPolicy;
  c_rateLimiter : option RateLimiter;
  c_middlewares : list (@Middleware W)
}.

(** A ClientOption either updates the client or fails with an error. *)
Definition ClientOption : Type := ClientS -> ClientS + GoErr.

Definition set_baseURL (u : string) (c : ClientS) : ClientS := {|
  c_baseURL := Some u; c_httpClient := c_httpClient c; c_timeout := c_timeout c;
  c_headers := c_headers c; c_defaultContentType := c_defaultContentType c;
  c_retryPolicy := c_retryPolicy c; c_rateLimiter := c_rateLimiter c;
  c_middlewares := c_middlewares c |}.

Definition set_httpClient (h : HTTPClientRef) (c : ClientS) : ClientS := {|
  c_baseURL := c_baseURL c; c_httpClient := h; c_timeout := c_timeout c;
  c_headers := c_headers c; c_defaultContentType := c_defaultContentType c;
  c_retryPolicy := c_retryPolicy c; c_rateLimiter := c_rateLimiter c;
  c_middlewares := c_middlewares c |}.

Definition set_timeout (d : Z) (c : ClientS) : ClientS := {|
  c_baseURL := c_baseURL c; c_httpClient := c_httpClient c; c_timeout := d;
  c_headers := c_headers c; c_defaultContentType := c_defaultContentType c;
  c_retryPolicy := c_retryPolicy c; c_rateLimiter := c_rateLimiter c;
  c_middlewares := c_middlewares c |}.

Definition set_headers (h : Header) (c : ClientS) : ClientS := {|
  c_baseURL := c_baseURL c; c_httpClient := c_httpClient c; c_timeout := c_timeout c;
  c_headers := h; c_defaultContentType := c_defaultContentType c;
  c_retryPolicy := c_retryPolicy c; c_rateLimiter := c_rateLimiter c;
  c_middlewares := c_middlewares c |}.

Definition set_defaultContentType (ct : string) (c : ClientS) : ClientS := {|
  c_baseURL := c_baseURL c; c_httpClient := c_httpClient c; c_timeout := c_timeout c;
  c_headers := c_headers c; c_defaultContentType := ct;
  c_retryPolicy := c_retryPolicy c; c_rateLimiter := c_rateLimiter c;
  c_middlewares := c_middlewares c |}.

Definition set_retryPolicy (p : option RetryPolicy) (c : ClientS) : ClientS := {|
  c_baseURL := c_baseURL c; c_httpClient := c_httpClient c; c_timeout := c_timeout c;
  c_headers := c_headers c; c_defaultContentType := c_defaultContentType c;
  c_retryPolicy := p; c_rateLimiter := c_rateLimiter c;
  c_middlewares := c_middlewares c |}.

Definition set_rateLimiter (r : option RateLimiter) (c : ClientS) : ClientS := {|
  c_baseURL := c_baseURL c; c_httpClient := c_httpClient c; c_timeout := c_timeout c;
  c_headers := c_headers c; c_defaultContentType := c_defaultContentType c;
  c_retryPolicy := c_retryPolicy c; c_rateLimiter := r;
  c_middlewares := c_middlewares c |}.

Definition set_middlewares (m : list (@Middleware W)) (c : ClientS) : ClientS := {|
  c_baseURL := c_baseURL c; c_httpClient := c_httpClient c; c_timeout := c_timeout c;
  c_headers := c_headers c; c_defaultContentType := c_defaultContentType c;
  c_retryPolicy := c_retryPolicy c; c_rateLimiter := c_rateLimiter c;
  c_middlewares := m |}.

(** WithBaseURL; [urlParse] is url.Parse's error, if any. *)
Definition WithBaseURL (urlParse : string -> option GoErr) (baseURL : string) : ClientOption :=
  fun c =>
    if String.eqb baseURL "" then inr (ErrText "base URL cannot be empty")
    else match urlParse baseURL with
         | Some err => inr err
         | None => inl (set_baseURL baseURL c)
         end.

(** WithHTTPClient; [None] is a nil *http.Client. *)
Definition WithHTTPClient (client : option HTTPClientRef) : ClientOption := fun c =>
  match client with
  | None => inr (ErrText "http client cannot be nil")
  | Some h => inl (set_httpClient h c)
  end.

Definition WithTimeout (d : Z) : ClientOption := fun c =>
  if d <=? 0 then inr (ErrText "timeout must be positive") else inl (set_timeout d c).

Definition WithHeader (key value : string) : ClientOption := fun c =>
  if String.eqb key "" then inr (ErrText "header key cannot be empty")
  else inl (set_headers (Hdr.Set_ (c_headers c) key value) c).

(** The loop of WithHeaders over the map's entries, in the order [range]
    visits them; an empty key stops it with an error. *)
Fixpoint setHeaders (kvs : list (string * string)) (c : ClientS) : ClientS + GoErr :=
  match kvs with
  | [] => inl c
  | (k, v) :: kvs' =>
      if String.eqb k "" then inr (ErrText "header key cannot be empty")
      else setHeaders kvs' (set_headers (Hdr.Set_ (c_headers c) k v) c)
  end.

(** WithHeaders; [order] is the order in which `range` visits the map, a
    permutation of its entries (Go leaves it unspecified). *)
Definition WithHeaders (order : list (string * string)) : ClientOption := setHeaders order.

Definition WithUserAgent (userAgent : string) : ClientOption := fun c =>
  inl (set_headers (Hdr.Set_ (c_headers c) "User-Agent" userAgent) c).

Definition WithDefaultContentType (contentType : string) : ClientOption := fun c =>
  if String.eqb contentType "" then inr (ErrText "content type cannot be empty")
  else inl (set_defaultContentType contentType c).

(** WithRetry; a nil policy is stored as it is. *)
Definition WithRetry (policy : option RetryPolicy) : ClientOption := fun c =>
  inl (set_retryPolicy policy c).

(** WithRateLimit; [now] is time.Now() when the option runs. *)
Definition WithRateLimit (now requests duration : Z) : ClientOption := fun c =>
  inl (set_rateLimiter (Some (NewRateLimiter requests duration now)) c).

(** WithMiddleware; [None] is a nil Middleware. *)
Definition WithMiddleware (mw : option (@Middleware W)) : ClientOption := fun c =>
  match mw with
  | None => inr (ErrText "middleware cannot be nil")
  | Some m => inl (set_middlewares (c_middlewares c ++ [m]) c)
  end.

(** The client New starts from. *)
Definition newClient : ClientS := {|
  c_baseURL := None;
  c_httpClient := DefaultHTTPClient;
  c_timeout := 30 * Second;
  c_headers := Hdr.Set_ (Hdr.Set_ ∅ "User-Agent" ("httpclient/" ++ Version)) "Accept" "application/json";
  c_defaultContentType := "application/json";
  c_retryPolicy := None;
  c_rateLimiter := None;
  c_middlewares := []
|}.

(** `for _, opt := range opts { if err := opt(c); err != nil { return nil,
    err } }` *)
Fixpoint applyOpts (opts : list ClientOption) (c : ClientS) : ClientS + GoErr :=
  match opts with
  | [] => inl c
  | opt :: opts' =>
      match opt c with
      | inr err => inr err
      | inl c' => applyOpts opts' c'
      end
  end.

Definition New (opts : list ClientOption) : ClientS + GoErr :=
  match applyOpts opts newClient with
  | inr err => inr err
  | inl c =>
      match c_baseURL c with
      | None => inr (ErrText "base URL is required: use WithBaseURL option")
      | Some _ => inl c
      end
  end.

(** The executor's view of a client: the base URL, the defaults, the
    policy, whether a bucket is present and the middlewares. *)
Definition toClient (c : ClientS) : @Client W := {|
  baseURL := default "" (c_baseURL c);
  timeout := c_timeout c;
  headers := c_headers c;
  defaultContentType := c_defaultContentType c;
  retryPolicy := c_retryPolicy c;
  rateLimiter := bool_decide (is_Some (c_rateLimiter c));
  middlewares := c_middlewares c
|}.


(** Every key of the header map is in canonical form (what Header.Set and
    Header.Add store). *)
Definition canonicalKeys (h : Header) : Prop :=
  forall k vs, h !! k = Some vs -> Hdr.CanonicalMIMEHeaderKey k = k.

(** The options client.go exports, as a caller writes them. *)
Inductive Opt :=
| OBaseURL (baseURL : string)
| OHTTPClient (client : option HTTPClientRef)
| OTimeout (d : Z)
| OHeader (key value : string)
| OHeaders (order : list (string * string))
| OUserAgent (userAgent : string)
| ODefaultContentType (contentType : string)
| ORetry (policy : option RetryPolicy)
| ORateLimit (now requests duration : Z)
| OMiddleware (mw : option (@Middleware W)).

Definition optOf (urlParse : string -> option GoErr) (o : Opt) : ClientOption :=
  match o with
  | OBaseURL u => WithBaseURL urlParse u
  | OHTTPClient h => WithHTTPClient h
  | OTimeout d => WithTimeout d
  | OHeader k v => WithHeader k v
  | OHeaders order => WithHeaders order
  | OUserAgent ua => WithUserAgent ua
  | ODefaultContentType ct => WithDefaultContentType ct
  | ORetry p => WithRetry p
  | ORateLimit now n d => WithRateLimit now n d
  | OMiddleware mw => WithMiddleware mw
  end.

(** The middlewares the options register, in order. *)
Fixpoint registered (os : list Opt) : list (@Middleware W) :=
  match os with
  | [] => []
  | OMiddleware (Some m) :: os' => m :: registered os'
  | _ :: os' => registered os'
  end.

(** The policy of the last WithRetry, [p] when there is none. *)
Fixpoint lastRetryFrom (p : option RetryPolicy) (os : list Opt) : option RetryPolicy :=
  match os with
  | [] => p
  | ORetry q :: os' => lastRetryFrom q os'
  | _ :: os' => lastRetryFrom p os'
  end.

End Build.
End Build.

(* ------------------------------------------------------------------------- *)
(* request.go: RequestBuilder                                                *)
(* ------------------------------------------------------------------------- *)

Module Builder.
Import Errors Exec.

Section Builder.
Context {W ReaderId FormValues JSONValue Target : Type}.

Record RequestBuilder := {
  rb_client : @Client W;
  rb_method : string;
  rb_path : string;
  rb_body : option (@BodyValue ReaderId FormValues JSONValue);
  rb_headers : Header;
  rb_query : gmap string (list string);
  rb_timeout : Z;
  rb_contentType : string
}.

Definition mkBuilder c m p body h q t ct : RequestBuilder := {|
  rb_client := c; rb_method := m; rb_path := p; rb_body := body;
  rb_headers := h; rb_query := q; rb_timeout := t; rb_contentType := ct |}.

(** Client.Request(). *)
Definition Request (c : @Client W) : RequestBuilder :=
  mkBuilder c "GET" "" None ∅ ∅ 0 "".

Definition Method (b : RequestBuilder) (m : string) : RequestBuilder :=
  mkBuilder (rb_client b) m (rb_path b) (rb_body b) (rb_headers b) (rb_query b)
    (rb_timeout b) (rb_contentType b).

Definition Path (b : RequestBuilder) (p : string) : RequestBuilder :=
  mkBuilder (rb_client b) (rb_method b) p (rb_body b) (rb_headers b) (rb_query b)
    (rb_timeout b) (rb_contentType b).

Definition Body (b : RequestBuilder) (body : option (@BodyValue ReaderId FormValues JSONValue))
    : RequestBuilder :=
  mkBuilder (rb_client b) (rb_method b) (rb_path b) body (rb_headers b) (rb_query b)
    (rb_timeout b) (rb_contentType b).

Definition Header_ (b : RequestBuilder) (key value : string) : RequestBuilder :=
  mkBuilder (rb_client b) (rb_method b) (rb_path b) (rb_body b)
    (Hdr.Set_ (rb_headers b) key value) (rb_query b) (rb_timeout b) (rb_contentType b).

(** url.Values.Add. *)
Definition Query (b : RequestBuilder) (key value : string) : RequestBuilder :=
  mkBuilder (rb_client b) (rb_method b) (rb_path b) (rb_body b) (rb_headers b)
    (<[key := default [] (rb_query b !! key) ++ [value]]> (rb_query b))
    (rb_timeout b) (rb_contentType b).

Definition Timeout (b : RequestBuilder) (d : Z) : RequestBuilder :=
  mkBuilder (rb_client b) (rb_method b) (rb_path b) (rb_body b) (rb_headers b) (rb_query b)
    d (rb_contentType b).

Definition ContentType (b : RequestBuilder) (ct : string) : RequestBuilder :=
  mkBuilder (rb_client b) (rb_method b) (rb_path b) (rb_body b) (rb_headers b) (rb_query b)
    (rb_timeout b) ct.

(** toRequestOptions; [hs] and [qs] are the orders in which `range` visits
    b.headers and b.query, permutations of their entries. *)
Definition toRequestOptions (b : RequestBuilder) (hs qs : list (string * list string))
    : list RequestOption :=
  flat_map (fun kv => map (fun v => WithRequestHeader kv.1 v) kv.2) hs ++
  flat_map (fun kv => map (fun v => WithQuery kv.1 v) kv.2) qs ++
  (if rb_timeout b >? 0 then [WithRequestTimeout (rb_timeout b)] else []) ++
  (if negb (String.eqb (rb_contentType b) "") then [WithContentType (rb_contentType b)] else []).


(** The builder's methods, as a caller chains them. *)
Inductive BuilderOp :=
| BMethod (m : string)
| BPath (p : string)
| BBody (body : option (@BodyValue ReaderId FormValues JSONValue))
| BHeader (key value : string)
| BQuery (key value : string)
| BTimeout (d : Z)
| BContentType (ct : string).

Definition applyOp (b : RequestBuilder) (op : BuilderOp) : RequestBuilder :=
  match op with
  | BMethod m => Method b m
  | BPath p => Path b p
  | BBody body => Body b body
  | BHeader k v => Header_ b k v
  | BQuery k v => Query b k v
  | BTimeout d => Timeout b d
  | BContentType ct => ContentType b ct
  end.

Context (env : @Env W ReaderId FormValues JSONValue Target).

(** RequestBuilder.Do and DoInto. *)
Definition Do (b : RequestBuilder) (ctx : Ctx) (hs qs : list (string * list string))
    : M (option Response * option GoErr) :=
  doWithOptions env (rb_client b) ctx (rb_method b) (rb_path b) (rb_body b) None
    (toRequestOptions b hs qs).

Definition DoInto (b : RequestBuilder) (ctx : Ctx) (result : Target)
    (hs qs : list (string * list string)) : M (option GoErr) :=
  fun s => let '(r, s') := doWithOptions env (rb_client b) ctx (rb_method b) (rb_path b)
                            (rb_body b) (Some result) (toRequestOptions b hs qs) s in
           (snd r, s').

End Builder.
End Builder.

(* ------------------------------------------------------------------------- *)
(* middleware.go: header redaction                                           *)
(* ------------------------------------------------------------------------- *)

Module Redact.

Definition RuneSelf : nat := 128.

(** strings.ToLower: the ASCII fast path as written; a string with a byte
    >= utf8.RuneSelf goes through `Map(unicode.ToLower, s)`, [unicodeLower]. *)
Definition is_upper (c : ascii) : bool :=
  (65 <=? nat_of_ascii c)%nat && (nat_of_ascii c <=? 90)%nat.

Fixpoint scan (s : string) : bool * bool :=   (* isASCII, hasUpper *)
  match s with
  | EmptyString => (true, false)
  | String c s' =>
      if (RuneSelf <=? nat_of_ascii c)%nat then (false, false)
      else let '(a, u) := scan s' in (a, is_upper c || u)
  end.

Fixpoint lower_ascii (s : string) : string :=
  match s with
  | EmptyString => EmptyString
  | String c s' =>
      String (if is_upper c then ascii_of_nat (nat_of_ascii c + 32) else c) (lower_ascii s')
  end.

Definition isASCII (s : string) : bool := fst (scan s).

Definition ToLower (unicodeLower : string -> string) (s : string) : string :=
  let '(isASCII, hasUpper) := scan s in
  if isASCII then (if negb hasUpper then s else lower_ascii s) else unicodeLower s.

(** strings.Join. *)
Fixpoint Join (elems : list string) (sep : string) : string :=
  match elems with
  | [] => ""
  | [e] => e
  | e :: elems' => e ++ sep ++ Join elems' sep
  end.

Definition defaultSensitiveHeaders : list string :=
  ["Authorization"; "Cookie"; "Set-Cookie"; "X-Auth-Token"; "X-Api-Key"].

(** The `sensitive` set LoggingMiddlewareWithRedaction builds. *)
Definition sensitiveSet (unicodeLower : string -> string) (additionalSensitive : list string)
    : gset string :=
  list_to_set (map (ToLower unicodeLower) (defaultSensitiveHeaders ++ additionalSensitive)).

(** redactHeaders. *)
Definition redactHeaders (unicodeLower : string -> string) (headers : Header)
    (sensitive : gset string) : gmap string string :=
  map_imap (fun key values =>
              Some (if bool_decide (ToLower unicodeLower key ∈ sensitive) then "[REDACTED]"
                    else Join values ", ")) headers.

End Redact.

(* ------------------------------------------------------------------------- *)
(* Views of the executor, the client and the builder used by the properties  *)
(* ------------------------------------------------------------------------- *)

Module Views.
Import Strconv Retry StM Exec Build Builder Errors.

(** The per-byte step of canon_loop. *)
Definition canon_char (upper : bool) (c : ascii) : ascii :=
  let b := byte_of c in
  if upper && (97 <=? b) && (b <=? 122) then ascii_of_nat (Z.to_nat (b - 32))
  else if negb upper && (65 <=? b) && (b <=? 90) then ascii_of_nat (Z.to_nat (b + 32))
  else c.

(** [canonicalKeys] as a check over the entries of a concrete map. *)
Definition canonicalKeysb (h : Header) : bool :=
  forallb (fun kv => String.eqb (Hdr.CanonicalMIMEHeaderKey kv.1) kv.1) (map_to_list h).

(** A computation whose result satisfies [P] from every state. *)
Definition yields {S A : Type} (m : StM S A) (P : A -> Prop) : Prop :=
  forall s, P (fst (m s)).

(** The (response, error) pairs doWithOptions can return, as its return
    statements build them. *)
Definition resultShape (maxAttempts : Z) (r : option Response * option GoErr) : Prop :=
  match r with
  | (None, Some _) => True
  | (None, None) => maxAttempts <= 0
  | (Some resp, Some (ErrClient e)) =>
      Kind e = ErrKindHTTP /\ StatusCode e = resp_StatusCode resp /\
      Status e = resp_Status resp /\ Body e = resp_Body resp /\
      Headers e = resp_Headers resp /\ 400 <= resp_StatusCode resp /\
      1 <= Attempts e <= maxAttempts /\ Err e = None
  | (Some resp, Some (ErrJSON _)) => resp_StatusCode resp < 400
  | (Some resp, None) => resp_StatusCode resp < 400
  | (Some _, Some _) => False
  end.

(** What one iteration of the attempt loop can end in. *)
Definition stepShape (maxAttempts attempt : Z) (st : Step) : Prop :=
  match st with
  | StepReturn r => resultShape maxAttempts r
  | StepContinue _ _ => attempt < maxAttempts
  end.

Section ClientView.
Context {W : Type}.
Context (urlParse : string -> option GoErr).

(** What every client option keeps: a positive timeout, a non-empty default
    content type, canonical header keys, and a base URL that is non-empty
    and parsed. *)
Definition clientInv (c : @ClientS W) : Prop :=
  0 < c_timeout c /\ c_defaultContentType c <> "" /\ canonicalKeys (c_headers c) /\
  (forall u, c_baseURL c = Some u -> u <> "" /\ urlParse u = None).

End ClientView.

Section BuilderView.
Context {W ReaderId FormValues JSONValue : Type}.

(** What the builder's maps hold: header keys in canonical form with one
    value each (Header.Set), query keys with at least one value (Values.Add). *)
Definition builderInv (b : @RequestBuilder W ReaderId FormValues JSONValue) : Prop :=
  (forall k vs, rb_headers b !! k = Some vs ->
     Hdr.CanonicalMIMEHeaderKey k = k /\ exists v, vs = [v]) /\
  (forall k vs, rb_query b !! k = Some vs -> vs <> []).

End BuilderView.

(** The number of waits (waitForRetry) in a log. *)
Fixpoint count_wait_events (l : list Event) : nat :=
  match l with
  | [] => O
  | EvWait _ _ :: l' => S (count_wait_events l')
  | _ :: l' => count_wait_events l'
  end.

(** The options loop of doWithOptions from a given config. *)
Definition runOpts (opts : list RequestOption) (cfg : requestConfig) : requestConfig :=
  fold_left (fun cfg opt => opt cfg) opts cfg.

Definition with_headers (cfg : requestConfig) (h : Header) : requestConfig :=
  {| cfg_timeout := cfg_timeout cfg; cfg_headers := h; cfg_query := cfg_query cfg;
     cfg_contentType := cfg_contentType cfg |}.

Definition with_query (cfg : requestConfig) (q : gmap string (list string)) : requestConfig :=
  {| cfg_timeout := cfg_timeout cfg; cfg_headers := cfg_headers cfg; cfg_query := q;
     cfg_contentType := cfg_contentType cfg |}.

End Views.

(* ------------------------------------------------------------------------- *)
(* Concrete clients, servers and buckets                                     *)
(* ------------------------------------------------------------------------- *)

Module Fixtures.
Import Errors Retry Exec RateLimit.

Definition resp503 : HTTPResponse := {|
  hr_StatusCode := 503; hr_Status := "503 Service Unavailable"; hr_Header := ∅;
  hr_Body := inl (String.list_byte_of_string "unavailable") |}.

Definition resp400 : HTTPResponse := {|
  hr_StatusCode := 400; hr_Status := "400 Bad Request"; hr_Header := ∅;
  hr_Body := inl (String.list_byte_of_string "bad request") |}.

Definition resp200 : HTTPResponse := {|
  hr_StatusCode := 200; hr_Status := "200 OK"; hr_Header := ∅;
  hr_Body := inl (String.list_byte_of_string "not json") |}.

(** What json.Unmarshal says of the body "not json". *)
Definition rejectNotJSON (b : list Byte.byte) (_ : unit) : option JSONError :=
  match b with
  | [] => None
  | _ => Some (JSONSyntaxError 2 "invalid character 'o' in literal null (expecting 'u')")
  end.

(** A server answering every request with [resp]; the world counts the
    requests it received; the clock stands still at 0 and waits return at
    once. *)
Definition serverEnv (resp : HTTPResponse) : @Env Z unit unit unit unit := {|
  jsonMarshal := fun _ => inl [];
  formEncode := fun _ => "";
  jsonUnmarshal := rejectNotJSON;
  ResolveURL := fun base path _ => String.append base path;
  URLParseError := fun _ => None;
  Now := fun w => (0, w);
  HTTPDo := fun _ w => (inl resp, w + 1);
  ReadAll := fun _ w => (inl [], w);
  LimiterWait := fun _ w => (None, w);
  Backoff := fun _ _ w => (0, w);
  Sleep := fun _ _ w => w
|}.

Definition withMaxAttempts (n : Z) : RetryPolicy := {|
  MaxAttempts := n;
  InitialDelay := InitialDelay DefaultRetryPolicy;
  MaxDelay := MaxDelay DefaultRetryPolicy;
  Multiplier := Multiplier DefaultRetryPolicy;
  Jitter := Jitter DefaultRetryPolicy
|}.

(** DefaultTimeout of NewClient. *)
Definition DefaultTimeout : Z := 30 * Second.

Definition testClient (p : option RetryPolicy) : @Client Z := {|
  baseURL := "https://api.example.com"; timeout := DefaultTimeout; headers := ∅;
  defaultContentType := "application/json"; retryPolicy := p;
  rateLimiter := false; middlewares := []
|}.

(** context.Background(). *)
Definition background : Ctx := CtxCaller 0 None.

Definition initial : Z * list Event := (0, []).

(** A context cancelled at time 0, and a bucket of one request per hour
    created at time 0. *)
Definition cancelled : WaitCtx := {| doneAt := Some 0; ctxErr := ErrCanceled |}.

Definition hourly : RateLimiter := NewRateLimiter 1 (3600 * Second) 0.

End Fixtures.

Module Samples.
Import Errors Retry Exec Build Builder Fixtures.
(** A builder chain with two headers, a repeated query key, a timeout and a
    content type. *)
Definition sampleOps : list (@BuilderOp unit unit unit) :=
  [BHeader "accept" "text/csv"; BHeader "x-trace" "1"; BQuery "page" "1";
   BQuery "page" "2"; BTimeout 5; BContentType "text/plain"].
Definition sampleBuilder : @RequestBuilder Z unit unit unit :=
  fold_left applyOp sampleOps (Request (testClient None)).

(** A server that is never reached: every request fails in the transport
    with a connection error. *)
Definition refused : GoErr := ErrText "dial tcp: connection refused".

Definition failingEnv : @Env Z unit unit unit unit := {|
  jsonMarshal := fun _ => inl [];
  formEncode := fun _ => "";
  jsonUnmarshal := rejectNotJSON;
  ResolveURL := fun base path _ => String.append base path;
  URLParseError := fun _ => None;
  Now := fun w => (0, w);
  HTTPDo := fun _ w => (inr refused, w + 1);
  ReadAll := fun _ w => (inl [], w);
  LimiterWait := fun _ w => (None, w);
  Backoff := fun _ _ w => (0, w);
  Sleep := fun _ _ w => w
|}.
End Samples.

(* ========================================================================= *)
(* Properties                                                                *)
(* ========================================================================= *)

Module RetryFacts.
Import Errors Retry.

Lemma ShouldRetry_true_in p code :
  ShouldRetry p code = true -> In code [408; 429; 502; 503; 504].
Proof.
  unfold ShouldRetry. intros H.
  destruct code as [|q|q]; try discriminate H.
  repeat (destruct q as [q|q|]; simpl in H; try discriminate H); simpl; lia.
Qed.

Lemma ShouldRetry_in_true p code :
  In code [408; 429; 502; 503; 504] -> ShouldRetry p code = true.
Proof. simpl. intros H. repeat destruct H as [H|H]; subst; try reflexivity. destruct H. Qed.

Lemma IsRetryable_ShouldRetry (e : Error) :
  IsRetryable e =
  match Kind e with
  | ErrKindTimeout | ErrKindNetwork => true
  | ErrKindHTTP => ShouldRetry DefaultRetryPolicy (StatusCode e)
  | _ => false
  end.
Proof. unfold IsRetryable, ShouldRetry. destruct (Kind e); reflexivity. Qed.

(** C3: ShouldRetry holds exactly for the statuses 408, 429, 502, 503 and
    504 (whatever the policy), and Error.IsRetryable holds exactly for the
    Timeout and Network kinds and for the HTTP kind with one of these
    statuses; so it fails for 400, 401, 404, 500, every status below 400 and
    the Parse, RateLimit and Unknown kinds. *)
Theorem retryable_statuses :
  (forall p code, ShouldRetry p code = true <-> In code [408; 429; 502; 503; 504]) /\
  (forall e : Error, IsRetryable e = true <->
     Kind e = ErrKindTimeout \/ Kind e = ErrKindNetwork \/
     (Kind e = ErrKindHTTP /\ In (StatusCode e) [408; 429; 502; 503; 504])).
Proof.
  split.
  - intros p code. split; [apply ShouldRetry_true_in | apply ShouldRetry_in_true].
  - intros e. rewrite IsRetryable_ShouldRetry.
    destruct (Kind e); split; intros H;
      first [ discriminate H
            | solve [intuition discriminate]
            | left; reflexivity
            | right; left; reflexivity
            | right; right; split; [reflexivity | eapply ShouldRetry_true_in; exact H]
            | apply ShouldRetry_in_true; intuition discriminate ].
Qed.

End RetryFacts.

Module RateLimitFacts.
Import Errors RateLimit.

Lemma selectWait_done start evalAt wd ctx tie d :
  doneAt ctx = Some d -> d <= evalAt -> start <= evalAt ->
  selectWait start evalAt wd ctx tie =
  (if start + Z.max wd 0 <=? evalAt then tie else true, evalAt).
Proof.
  intros Hd Hle Hs. unfold selectWait. rewrite Hd.
  replace (Z.max evalAt (Z.min d (start + Z.max wd 0))) with evalAt by lia.
  replace (d <=? evalAt) with true by (symmetry; apply Z.leb_le; lia).
  destruct (start + Z.max wd 0 <=? evalAt); reflexivity.
Qed.

Lemma waitLoop_err ticks ctx now r e r' acts :
  waitLoop ticks ctx now r = (WaitErr e, r', acts) ->
  e = ctxErr ctx /\ Forall (fun a => exists t, a = ARefill t) acts.
Proof.
  revert now r r' acts.
  induction ticks as [|tk ticks IH]; intros now r r' acts H; cbn -[refill] in H.
  - destruct (PrimFloat.leb 1 (tokens (refill now r))); discriminate H.
  - destruct (PrimFloat.leb 1 (tokens (refill now r))); [discriminate H|].
    destruct (selectWait _ _ _ ctx (pickCtx tk)) as [[|] t].
    + injection H as <- <- <-. split; [reflexivity|]. repeat constructor. eauto.
    + destruct (waitLoop ticks ctx (t + latency tk) (others tk (refill now r)))
        as [[res r''] acts'] eqn:E.
      injection H as -> <- <-. apply IH in E as [He Hacts].
      split; [exact He|]. constructor; eauto.
Qed.

(** C5 (amended): Wait looks at the bucket before the context. A call whose
    refill leaves at least one token debits one and returns nil, whatever
    the state of its context. An error comes only from the select, and it is
    ctx.Err(); a failed call never debits, its only operations on the bucket
    being refills. When the context is already done and the bucket holds
    less than one token, the first select fails the call with ctx.Err() if
    the timer has not fired by the time the select is evaluated, or if Go
    picks the ctx case; when the timer has also fired and Go picks the timer
    case, the loop goes on to refill again, and can then grant a token. *)
Theorem Wait_bucket_first :
  (forall ticks ctx now r,
     PrimFloat.leb 1 (tokens (refill now r)) = true ->
     Wait ticks ctx now r = (WaitOk, debit (refill now r), [ARefill now; ADebit])) /\
  (forall ticks ctx now r e r' acts,
     Wait ticks ctx now r = (WaitErr e, r', acts) ->
     e = ctxErr ctx /\ ~ In ADebit acts /\ Forall (fun a => exists t, a = ARefill t) acts) /\
  (forall tk ticks ctx now r d,
     doneAt ctx = Some d -> d <= now -> 0 <= timerDelay tk -> 0 <= selectDelay tk ->
     PrimFloat.leb 1 (tokens (refill now r)) = false ->
     (selectDelay tk < int64_of_float ((1 - tokens (refill now r)) / refillRate (refill now r))%float
      \/ pickCtx tk = true) ->
     Wait (tk :: ticks) ctx now r = (WaitErr (ctxErr ctx), refill now r, [ARefill now])) /\
  (forall tk ticks ctx now r d,
     doneAt ctx = Some d -> d <= now -> 0 <= timerDelay tk -> 0 <= selectDelay tk ->
     PrimFloat.leb 1 (tokens (refill now r)) = false ->
     int64_of_float ((1 - tokens (refill now r)) / refillRate (refill now r))%float <= selectDelay tk ->
     pickCtx tk = false ->
     Wait (tk :: ticks) ctx now r =
     let '(res, r', acts) := Wait ticks ctx (now + timerDelay tk + selectDelay tk + latency tk)
                               (others tk (refill now r)) in
     (res, r', ARefill now :: acts)).
Proof.
  split; [|split; [|split]].
  - intros ticks ctx now r H. unfold Wait. destruct ticks; cbn -[refill]; rewrite H; reflexivity.
  - intros ticks ctx now r e r' acts H. apply waitLoop_err in H as [He Hacts].
    split; [exact He|]. split; [|exact Hacts].
    intros Hin. rewrite List.Forall_forall in Hacts. destruct (Hacts _ Hin) as [t Ht]. discriminate Ht.
  - intros tk ticks ctx now r d Hd Hle Ht Hs Hlt Hw. unfold Wait. cbn -[refill selectWait]. rewrite Hlt.
    rewrite (selectWait_done (now + timerDelay tk) (now + timerDelay tk + selectDelay tk) _ ctx (pickCtx tk) d Hd)
      by lia.
    destruct Hw as [Hw|Hp].
    + replace (_ <=? _) with false by (symmetry; apply Z.leb_gt; lia). reflexivity.
    + rewrite Hp. destruct (_ <=? _); reflexivity.
  - intros tk ticks ctx now r d Hd Hle Ht Hs Hlt Hw Hp. unfold Wait. cbn -[refill selectWait]. rewrite Hlt.
    rewrite (selectWait_done (now + timerDelay tk) (now + timerDelay tk + selectDelay tk) _ ctx (pickCtx tk) d Hd)
      by lia.
    replace (_ <=? _) with true by (symmetry; apply Z.leb_le; lia). rewrite Hp.
    reflexivity.
Qed.

(** A cancelled context does not stop Wait from handing out the bucket's
    last token. *)
Lemma Wait_cancelled_grants :
  doneAt Fixtures.cancelled = Some 0 /\
  Wait [{| timerDelay := 0; selectDelay := 0; latency := 0; others := fun r => r; pickCtx := true |}]
       Fixtures.cancelled (5 * Retry.Second) Fixtures.hourly =
  (WaitOk, debit (refill (5 * Retry.Second) Fixtures.hourly),
   [ARefill (5 * Retry.Second); ADebit]).
Proof. split; vm_compute; reflexivity. Qed.

Lemma Wait_bucket_first_witness :
  Wait [{| timerDelay := 0; selectDelay := 0; latency := 0; others := fun r => r; pickCtx := false |}]
       Fixtures.cancelled (5 * Retry.Second) (debit Fixtures.hourly) =
  (WaitErr ErrCanceled, refill (5 * Retry.Second) (debit Fixtures.hourly),
   [ARefill (5 * Retry.Second)]) /\
  ~ In ADebit [ARefill (5 * Retry.Second)] /\
  Wait [{| timerDelay := 0; selectDelay := 1; latency := 0; others := fun r => r; pickCtx := false |}]
       Fixtures.cancelled (Retry.Second - 1) (debit (NewRateLimiter 1 Retry.Second 0)) =
  (WaitOk, debit (refill Retry.Second (refill (Retry.Second - 1) (debit (NewRateLimiter 1 Retry.Second 0)))),
   [ARefill (Retry.Second - 1); ARefill Retry.Second; ADebit]).
Proof.
  destruct Wait_bucket_first as [_ [H2 [H3 H4]]].
  assert (E : Wait [{| timerDelay := 0; selectDelay := 0; latency := 0; others := fun r => r; pickCtx := false |}]
       Fixtures.cancelled (5 * Retry.Second) (debit Fixtures.hourly) =
      (WaitErr ErrCanceled, refill (5 * Retry.Second) (debit Fixtures.hourly),
       [ARefill (5 * Retry.Second)]))
    by (apply (H3 _ _ Fixtures.cancelled _ _ 0); vm_compute;
        first [reflexivity | discriminate | left; reflexivity]).
  split; [exact E|]. split; [exact (proj1 (proj2 (H2 _ _ _ _ _ _ _ E)))|].
  rewrite (H4 _ _ Fixtures.cancelled _ _ 0); vm_compute; first [reflexivity | discriminate].
Defined.

End RateLimitFacts.

Module ExecFacts.
Import GoInt Errors Retry StM Exec Obs.

Section Grows.
Context {W ReaderId FormValues JSONValue Target : Type}.
Context (env : @Env W ReaderId FormValues JSONValue Target).
Implicit Types (P : Event -> Prop).

Lemma grows_ret {A} P (a : A) : grows (W:=W) P (ret a).
Proof. intros s. exists []. split; [symmetry; apply app_nil_r | constructor]. Qed.

Lemma grows_bind {A B} P (m : @M W A) (k : A -> @M W B) :
  grows P m -> (forall a, grows P (k a)) -> grows P (bind m k).
Proof.
  intros Hm Hk s. destruct (Hm s) as [l1 [E1 F1]]. unfold bind.
  destruct (m s) as [a s1]. simpl in E1. destruct (Hk a s1) as [l2 [E2 F2]].
  exists (l1 ++ l2). rewrite E2, E1, app_assoc. split; [reflexivity | apply Forall_app; auto].
Qed.

Lemma grows_lift {A} P (f : W -> A * W) : grows P (lift f).
Proof.
  intros s. unfold lift. destruct (f (fst s)) as [a w']. exists [].
  split; [symmetry; apply app_nil_r | constructor].
Qed.

Lemma grows_emit P e : P e -> grows (W:=W) P (emit e).
Proof. intros He s. exists [e]. split; [reflexivity | repeat constructor; exact He]. Qed.

Lemma grows_runMw P (p : @MwProg W) (next : @RoundTripFunc W) :
  (forall r, grows P (next r)) -> grows P (runMw p next).
Proof.
  intros Hn. induction p as [o|k IH|w k IH|r k IH]; simpl.
  - apply grows_ret.
  - intros s. apply (IH (fst s) s).
  - intros s. destruct (IH (w, snd s)) as [l [E F]]. exists l. split; [exact E | exact F].
  - apply grows_bind; [apply Hn | exact IH].
Qed.

Lemma grows_runMw_pres P bb (p : @MwProg W) (next : @RoundTripFunc W) :
  preservesBody bb p -> (forall r, rq_Body r = bb -> grows P (next r)) ->
  grows P (runMw p next).
Proof.
  intros Hp Hn. induction p as [o|k IH|w k IH|r k IH]; simpl in *.
  - apply grows_ret.
  - intros s. apply (IH (fst s) (Hp (fst s)) s).
  - intros s. destruct (IH Hp (w, snd s)) as [l [E F]]. exists l. split; [exact E | exact F].
  - destruct Hp as [Hr Hk]. apply grows_bind; [apply Hn, Hr | intros o; apply IH, Hk].
Qed.

Lemma grows_chain P (mws : list (@Middleware W)) (t : @RoundTripFunc W) :
  (forall r, grows P (t r)) -> forall r, grows P (buildChain mws t r).
Proof.
  unfold buildChain. generalize (rev mws) as l. intros l. revert t.
  induction l as [|mw l IH]; intros t Ht r; simpl.
  - apply Ht.
  - apply IH. intros r'. apply grows_runMw, Ht.
Qed.

Lemma grows_chain_pres P bb (mws : list (@Middleware W)) (t : @RoundTripFunc W) :
  Forall bodyPreserving mws -> (forall r, rq_Body r = bb -> grows P (t r)) ->
  forall r, rq_Body r = bb -> grows P (buildChain mws t r).
Proof.
  unfold buildChain. intros Hmws. apply Forall_rev in Hmws.
  generalize dependent (rev mws). intros l Hl. revert t.
  induction Hl as [|mw l Hmw Hl IH]; intros t Ht r Hr; simpl.
  - apply Ht, Hr.
  - apply IH; [|exact Hr]. intros r' Hr'.
    apply (grows_runMw_pres P bb). { rewrite <- Hr'. apply Hmw. } exact Ht.
Qed.

Lemma grows_baseTransport P r : P (EvTransport r) -> grows P (baseTransport env r).
Proof. intros H. unfold baseTransport. apply grows_bind; [apply grows_emit, H | intros; apply grows_lift]. Qed.

Lemma grows_waitForRetry P ctx d : P (EvWait ctx d) -> grows P (waitForRetry env ctx d).
Proof. intros H. unfold waitForRetry. apply grows_bind; [apply grows_emit, H | intros; apply grows_lift]. Qed.

Ltac grows_step :=
  match goal with
  | |- grows _ (ret _) => apply grows_ret
  | |- grows _ (lift _) => apply grows_lift
  | |- grows _ (bind _ _) => apply grows_bind; [|intros ?]
  | |- grows _ (waitForRetry _ _ _) => apply grows_waitForRetry
  | |- grows _ (match ?x with _ => _ end) => destruct x
  end.

Lemma grows_handleOutcome P c ctx method url result maxAttempts attempt response o :
  (forall d, P (EvWait ctx d)) ->
  grows P (handleOutcome env c ctx method url result maxAttempts attempt response o).
Proof.
  intros Hw. unfold handleOutcome. cbv zeta.
  repeat first [ grows_step | apply Hw ].
Qed.

Lemma NewRequest_fields ctx method url bb r :
  NewRequestWithContext env ctx method url bb = inl r -> rq_Body r = bb /\ rq_Context r = ctx.
Proof.
  unfold NewRequestWithContext. cbv zeta.
  destruct (negb _); [discriminate|]. destruct (URLParseError env url); [discriminate|].
  intros H. injection H as <-. split; reflexivity.
Qed.

Lemma grows_attemptBody P c ctx method url body result cfg bb ct maxAttempts attempt response :
  (forall a r, rq_Body r = bb -> rq_Context r = ctx -> P (EvAttempt a r)) ->
  (forall r, rq_Body r = bb -> grows P (buildChain (middlewares c) (baseTransport env) r)) ->
  (forall d, P (EvWait ctx d)) ->
  grows P (attemptBody env c ctx method url body result cfg bb ct maxAttempts attempt response).
Proof.
  intros Ha Hc Hw. unfold attemptBody.
  destruct (NewRequestWithContext env ctx method url bb) as [req0|e] eqn:E.
  - apply NewRequest_fields in E as [Eb Ec].
    apply grows_bind; [apply grows_emit, Ha; assumption | intros _].
    apply grows_bind; [apply Hc; exact Eb | intros o].
    apply grows_handleOutcome, Hw.
  - apply grows_ret.
Qed.

Lemma grows_attemptLoop P c ctx method url body result cfg bb ct maxAttempts :
  (forall a r, rq_Body r = bb -> rq_Context r = ctx -> P (EvAttempt a r)) ->
  (forall r, rq_Body r = bb -> grows P (buildChain (middlewares c) (baseTransport env) r)) ->
  (forall d, P (EvWait ctx d)) ->
  forall fuel attempt response lastErr,
  grows P (attemptLoop env c ctx method url body result cfg bb ct maxAttempts
             fuel attempt response lastErr).
Proof.
  intros Ha Hc Hw fuel. induction fuel as [|fuel IH]; intros attempt response lastErr; simpl.
  - apply grows_ret.
  - apply grows_bind; [apply grows_attemptBody; assumption | intros [response' lastErr'|r]].
    + apply IH.
    + apply grows_ret.
Qed.

Lemma prepare_spec c ctx method path body opts s :
  let '(pr, s') := prepare env c ctx method path body opts s in
  (exists l, snd s' = snd s ++ EvEncode :: l /\ Forall (fun e => e = EvRateLimit ctx) l) /\
  match pr with
  | PrepReturn _ => True
  | PrepLoop ctx' cfg u bb ct =>
      cfg = cfgOf opts /\ u = ResolveURL env (baseURL c) path (cfg_query (cfgOf opts)) /\
      (0 < cfg_timeout cfg -> exists d, ctx' = CtxWithDeadline ctx d) /\
      (cfg_timeout cfg <= 0 -> ctx' = ctx) /\
      bytesFixedBy (EncodeBody env body) bb
  end.
Proof.
  unfold prepare, readBody, bind, emit, ret, lift. cbn -[EncodeBody ResolveURL].
  destruct (EncodeBody env body) as [[[[b|rid]|] ct]|e] eqn:E; cbn -[ResolveURL];
  [| destruct (ReadAll env rid (fst s)) as [[b|e] w1] | |];
  try (destruct (rateLimiter c); cbn -[ResolveURL];
       [destruct (LimiterWait env ctx _) as [[e|] w2]; cbn -[ResolveURL] |]);
  try (destruct (cfg_timeout _ >? 0) eqn:Et; cbn -[ResolveURL];
       [destruct (Now env _) as [now w3]; cbn -[ResolveURL] |]).
  all: split;
    [ first [ exists [EvRateLimit ctx]; split;
                [rewrite <- app_assoc; reflexivity | repeat constructor]
            | exists []; split; [reflexivity | constructor] ]
    | repeat split; try reflexivity; intros Ht;
      first [ eexists; reflexivity | reflexivity
            | exfalso; first [ apply Z.gtb_lt in Et | rewrite Z.gtb_ltb, Z.ltb_ge in Et ]; lia ] ].
Qed.


Lemma count_app_attempts l1 l2 : count_attempts (l1 ++ l2) = (count_attempts l1 + count_attempts l2)%nat.
Proof. induction l1 as [|[] l1 IH]; simpl; rewrite ?IH; reflexivity. Qed.

Lemma count_app_transport l1 l2 : count_transport (l1 ++ l2) = (count_transport l1 + count_transport l2)%nat.
Proof. induction l1 as [|[] l1 IH]; simpl; rewrite ?IH; reflexivity. Qed.

Lemma count_waits l ctx :
  Forall (fun e => exists d, e = EvWait ctx d) l -> count_attempts l = O /\ count_transport l = O.
Proof. induction 1 as [|e l [d ->] _ [IH1 IH2]]; simpl; auto. Qed.

Lemma count_ratelimits l ctx :
  Forall (fun e => e = EvRateLimit ctx) l -> count_attempts l = O /\ count_transport l = O.
Proof. induction 1 as [|e l -> _ [IH1 IH2]]; simpl; auto. Qed.

Lemma doWithOptions_unfold c ctx method path body result opts s :
  doWithOptions env c ctx method path body result opts s =
  let '(pr, s1) := prepare env c ctx method path body opts s in
  match pr with
  | PrepReturn r => (r, s1)
  | PrepLoop ctx' cfg u bb ct =>
      attemptLoop env c ctx' method u body result cfg bb ct (maxAttemptsOf c)
        (Z.to_nat (maxAttemptsOf c)) 1 None None s1
  end.
Proof. unfold doWithOptions, bind. destruct (prepare env c ctx method path body opts s) as [[] s1]; reflexivity. Qed.

Lemma retryHTTP_spec (c : @Client W) maxAttempts attempt code :
  retryHTTP c maxAttempts attempt code = true <->
  exists p, retryPolicy c = Some p /\ attempt < maxAttempts /\ ShouldRetry p code = true.
Proof.
  unfold retryHTTP. destruct (retryPolicy c) as [p|].
  - rewrite andb_true_iff, Z.ltb_lt. split.
    + intros [H1 H2]. exists p. auto.
    + intros [p' [Hp [H1 H2]]]. injection Hp as <-. auto.
  - split; [discriminate | intros [p [Hp _]]; discriminate Hp].
Qed.

Lemma validMethod_nonempty m : validMethod m = true -> String.eqb m "" = false.
Proof. unfold validMethod. rewrite andb_true_iff, negb_true_iff. tauto. Qed.

Lemma NewRequest_ok ctx method url bb :
  validMethod method = true -> URLParseError env url = None ->
  NewRequestWithContext env ctx method url bb =
  inl {| rq_Method := method; rq_URL := url; rq_Header := ∅; rq_Body := bb; rq_Context := ctx |}.
Proof.
  intros Hm Hu. unfold NewRequestWithContext. rewrite (validMethod_nonempty _ Hm), Hm, Hu.
  reflexivity.
Qed.

Lemma handleOutcome_http c ctx method url result maxAttempts attempt response resp b s :
  hr_Body resp = inl b -> 400 <= hr_StatusCode resp ->
  fst (handleOutcome env c ctx method url result maxAttempts attempt response (inl resp) s) =
  if retryHTTP c maxAttempts attempt (hr_StatusCode resp)
  then StepContinue (Some (toResponse resp b)) (Some (httpError resp b method url attempt))
  else StepReturn (Some (toResponse resp b), Some (httpError resp b method url attempt)).
Proof.
  intros Hb Hc. unfold handleOutcome. rewrite Hb. cbv zeta.
  replace (hr_StatusCode resp >=? 400) with true by (symmetry; apply Z.geb_le; lia).
  unfold retryHTTP. destruct (retryPolicy c) as [p|]; [|reflexivity].
  destruct (_ && _); [|reflexivity].
  unfold bind, lift, waitForRetry, emit, ret. cbn.
  destruct (Backoff env p attempt (fst s)). reflexivity.
Qed.

Lemma handleOutcome_success c ctx method url result maxAttempts attempt response resp b s :
  hr_Body resp = inl b -> hr_StatusCode resp < 400 ->
  exists r, fst (handleOutcome env c ctx method url result maxAttempts attempt response (inl resp) s) =
            StepReturn r.
Proof.
  intros Hb Hc. unfold handleOutcome. rewrite Hb. cbv zeta.
  replace (hr_StatusCode resp >=? 400) with false by (symmetry; rewrite Z.geb_leb; apply Z.leb_gt; lia).
  destruct result as [t|]; [|eexists; reflexivity].
  destruct (negb _); [|eexists; reflexivity].
  destruct (jsonUnmarshal env b t); eexists; reflexivity.
Qed.

Lemma grows_waits c ctx method url result maxAttempts attempt response o :
  grows (fun e => exists d, e = EvWait ctx d)
    (handleOutcome env c ctx method url result maxAttempts attempt response o).
Proof. apply grows_handleOutcome. intros d. exists d. reflexivity. Qed.

Section FixedServer.
Variables (c : @Client W) (ctx : Ctx) (method url : string)
  (body : option (@BodyValue ReaderId FormValues JSONValue))
  (result : option Target) (cfg : requestConfig) (bb : option (list Byte.byte))
  (ct : string) (maxAttempts : Z) (resp : HTTPResponse) (b : list Byte.byte).
Hypotheses (Hmw : middlewares c = []) (Hm : validMethod method = true)
  (Hu : URLParseError env url = None) (Hdo : forall r w, fst (HTTPDo env r w) = inl resp)
  (Hb : hr_Body resp = inl b) (Hc : 400 <= hr_StatusCode resp).

(** One attempt against a server that always answers [resp]. *)
Lemma attemptLoop_step k attempt response lastErr s :
  exists l s1, snd s1 = snd s ++ l /\ count_attempts l = 1%nat /\
  attemptLoop env c ctx method url body result cfg bb ct maxAttempts (S k) attempt response lastErr s =
  if retryHTTP c maxAttempts attempt (hr_StatusCode resp)
  then attemptLoop env c ctx method url body result cfg bb ct maxAttempts k (attempt + 1)
         (Some (toResponse resp b)) (Some (httpError resp b method url attempt)) s1
  else ((Some (toResponse resp b), Some (httpError resp b method url attempt)), s1).
Proof.
  cbn [attemptLoop]. unfold attemptBody. rewrite (NewRequest_ok _ _ _ _ Hm Hu). rewrite Hmw.
  cbn [buildChain rev fold_left]. unfold baseTransport, bind, emit, lift. cbn [fst snd].
  set (req := withHeader _ _).
  destruct (HTTPDo env req (fst s)) as [o w1] eqn:Edo.
  assert (Ho : o = inl resp) by (rewrite <- (Hdo req (fst s)), Edo; reflexivity). subst o.
  pose proof (handleOutcome_http c ctx method url result maxAttempts attempt response resp b
                (w1, (snd s ++ [EvAttempt attempt req]) ++ [EvTransport req]) Hb Hc) as Hh.
  destruct (grows_waits c ctx method url result maxAttempts attempt response (inl resp)
              (w1, (snd s ++ [EvAttempt attempt req]) ++ [EvTransport req])) as [lw [Ew Fw]].
  destruct (handleOutcome env c ctx method url result maxAttempts attempt response (inl resp)
              (w1, (snd s ++ [EvAttempt attempt req]) ++ [EvTransport req])) as [st s3].
  cbn [fst snd] in Hh, Ew. apply count_waits in Fw as [Fw _].
  exists ([EvAttempt attempt req; EvTransport req] ++ lw), s3. split; [|split].
  - rewrite Ew, <- !app_assoc. reflexivity.
  - rewrite count_app_attempts, Fw. reflexivity.
  - rewrite Hh. destruct (retryHTTP _ _ _ _); reflexivity.
Qed.

Lemma attemptLoop_exhaust p (Hp : retryPolicy c = Some p)
    (Hr : ShouldRetry p (hr_StatusCode resp) = true) :
  forall k attempt response lastErr s,
  (1 <= k)%nat -> attempt + Z.of_nat k = maxAttempts + 1 ->
  let '(res, s') := attemptLoop env c ctx method url body result cfg bb ct maxAttempts
                      k attempt response lastErr s in
  exists l, snd s' = snd s ++ l /\ count_attempts l = k /\
    res = (Some (toResponse resp b), Some (httpError resp b method url maxAttempts)).
Proof.
  induction k as [|k IH]; intros attempt response lastErr s Hk Ha; [lia|].
  destruct (attemptLoop_step k attempt response lastErr s) as [l [s1 [E1 [C1 Hstep]]]].
  rewrite Hstep. destruct k as [|k].
  - replace (retryHTTP c maxAttempts attempt (hr_StatusCode resp)) with false.
    + exists l. split; [exact E1|]. split; [exact C1|].
      replace attempt with maxAttempts by lia. reflexivity.
    + symmetry. unfold retryHTTP. rewrite Hp, Hr, andb_true_r. apply Z.ltb_ge. lia.
  - replace (retryHTTP c maxAttempts attempt (hr_StatusCode resp)) with true.
    + specialize (IH (attempt + 1) (Some (toResponse resp b))
                    (Some (httpError resp b method url attempt)) s1 ltac:(lia) ltac:(lia)).
      destruct (attemptLoop env c ctx method url body result cfg bb ct maxAttempts (S k)
                  (attempt + 1) _ _ s1) as [res s'].
      destruct IH as [l2 [E2 [C2 R2]]]. exists (l ++ l2). split; [|split].
      * rewrite E2, E1, app_assoc. reflexivity.
      * rewrite count_app_attempts, C1, C2. reflexivity.
      * exact R2.
    + symmetry. unfold retryHTTP. rewrite Hp, Hr, andb_true_r. apply Z.ltb_lt. lia.
Qed.

Lemma attemptLoop_once k attempt response lastErr s :
  retryHTTP c maxAttempts attempt (hr_StatusCode resp) = false ->
  let '(res, s') := attemptLoop env c ctx method url body result cfg bb ct maxAttempts
                      (S k) attempt response lastErr s in
  exists l, snd s' = snd s ++ l /\ count_attempts l = 1%nat /\
    res = (Some (toResponse resp b), Some (httpError resp b method url attempt)).
Proof.
  intros Hn. destruct (attemptLoop_step k attempt response lastErr s) as [l [s1 [E1 [C1 Hstep]]]].
  rewrite Hstep, Hn. exists l. auto.
Qed.

End FixedServer.

Lemma ShouldRetry_ge_400 p code : ShouldRetry p code = true -> 400 <= code.
Proof. intros H. apply RetryFacts.ShouldRetry_true_in in H. simpl in H. lia. Qed.

Lemma doWithOptions_http_loop c p ctx method path body result opts s resp b :
  retryPolicy c = Some p -> 1 <= MaxAttempts p -> middlewares c = [] ->
  validMethod method = true -> (forall u, URLParseError env u = None) ->
  (forall r w, fst (HTTPDo env r w) = inl resp) -> hr_Body resp = inl b ->
  400 <= hr_StatusCode resp ->
  prepLoops (fst (prepare env c ctx method path body opts s)) = true ->
  let url := ResolveURL env (baseURL c) path (cfg_query (cfgOf opts)) in
  let '(res, s') := doWithOptions env c ctx method path body result opts s in
  exists l, snd s' = snd s ++ l /\
    (ShouldRetry p (hr_StatusCode resp) = true ->
       count_attempts l = Z.to_nat (MaxAttempts p) /\
       res = (Some (toResponse resp b), Some (httpError resp b method url (MaxAttempts p)))) /\
    (ShouldRetry p (hr_StatusCode resp) = false ->
       count_attempts l = 1%nat /\
       res = (Some (toResponse resp b), Some (httpError resp b method url 1))).
Proof.
  intros Hp Hmax Hmw Hm Hu Hdo Hb Hc Hloop url.
  rewrite doWithOptions_unfold.
  pose proof (prepare_spec c ctx method path body opts s) as Hs.
  destruct (prepare env c ctx method path body opts s) as [[r|ctx' cfg u bb ct] s1];
    [discriminate Hloop|].
  destruct Hs as [[l1 [E1 F1]] [_ [Huu _]]].
  apply count_ratelimits in F1 as [C1 _].
  unfold maxAttemptsOf. rewrite Hp.
  destruct (Z.to_nat (MaxAttempts p)) as [|k] eqn:Ek; [lia|].
  destruct (ShouldRetry p (hr_StatusCode resp)) eqn:Hr.
  - pose proof (attemptLoop_exhaust c ctx' method u body result cfg bb ct (MaxAttempts p)
                  resp b Hmw Hm (Hu u) Hdo Hb Hc p Hp Hr (S k) 1 None None s1
                  ltac:(lia) ltac:(lia)) as H.
    destruct (attemptLoop env c ctx' method u body result cfg bb ct (MaxAttempts p) (S k) 1
                None None s1) as [res s'].
    destruct H as [l2 [E2 [C2 R2]]].
    exists (EvEncode :: l1 ++ l2). split; [|split].
    + rewrite E2, E1, <- app_assoc. reflexivity.
    + intros _. split.
      * simpl. rewrite count_app_attempts, C1, C2. reflexivity.
      * rewrite R2, Huu. reflexivity.
    + intros H. discriminate H.
  - assert (Hn : retryHTTP c (MaxAttempts p) 1 (hr_StatusCode resp) = false)
      by (unfold retryHTTP; rewrite Hp, Hr, andb_false_r; reflexivity).
    pose proof (attemptLoop_once c ctx' method u body result cfg bb ct (MaxAttempts p)
                  resp b Hmw Hm (Hu u) Hdo Hb Hc k 1 None None s1 Hn) as H.
    destruct (attemptLoop env c ctx' method u body result cfg bb ct (MaxAttempts p) (S k) 1
                None None s1) as [res s'].
    destruct H as [l2 [E2 [C2 R2]]].
    exists (EvEncode :: l1 ++ l2). split; [|split].
    + rewrite E2, E1, <- app_assoc. reflexivity.
    + intros H. discriminate H.
    + intros _. split.
      * simpl. rewrite count_app_attempts, C1, C2. reflexivity.
      * rewrite R2, Huu. reflexivity.
Qed.

(** C1: after a response with status >= 400 whose body was read, the loop
    continues exactly when a retry policy is configured, attempts remain and
    the policy retries the status; otherwise it returns that response with
    an HTTP-kind Error whose Attempts is the attempt number. Against a
    server that always answers with the same status >= 400, with no
    middlewares and a policy of n >= 1 attempts, a run (that reaches the
    loop) makes n attempts and ends with an HTTP-kind Error with Attempts = n
    when the status is retryable (503 under 3 attempts gives 3), and exactly
    one attempt, with Attempts = 1, when it is not (400). A response below
    400 ends the loop. *)
Theorem http_status_retry_decision :
  (forall c ctx method url result maxAttempts attempt response resp b s,
     hr_Body resp = inl b -> 400 <= hr_StatusCode resp ->
     fst (handleOutcome env c ctx method url result maxAttempts attempt response (inl resp) s) =
     (if retryHTTP c maxAttempts attempt (hr_StatusCode resp)
      then StepContinue (Some (toResponse resp b)) (Some (httpError resp b method url attempt))
      else StepReturn (Some (toResponse resp b), Some (httpError resp b method url attempt)))) /\
  (forall (c : @Client W) maxAttempts attempt code,
     retryHTTP c maxAttempts attempt code = true <->
     exists p, retryPolicy c = Some p /\ attempt < maxAttempts /\ ShouldRetry p code = true) /\
  (forall c p ctx method path body result opts s resp b,
     retryPolicy c = Some p -> 1 <= MaxAttempts p -> middlewares c = [] ->
     validMethod method = true -> (forall u, URLParseError env u = None) ->
     (forall r w, fst (HTTPDo env r w) = inl resp) -> hr_Body resp = inl b ->
     400 <= hr_StatusCode resp ->
     prepLoops (fst (prepare env c ctx method path body opts s)) = true ->
     let url := ResolveURL env (baseURL c) path (cfg_query (cfgOf opts)) in
     let '(res, s') := doWithOptions env c ctx method path body result opts s in
     exists l, snd s' = snd s ++ l /\
       (ShouldRetry p (hr_StatusCode resp) = true ->
          count_attempts l = Z.to_nat (MaxAttempts p) /\
          res = (Some (toResponse resp b), Some (httpError resp b method url (MaxAttempts p)))) /\
       (ShouldRetry p (hr_StatusCode resp) = false ->
          count_attempts l = 1%nat /\
          res = (Some (toResponse resp b), Some (httpError resp b method url 1)))) /\
  (forall c ctx method url result maxAttempts attempt response resp b s,
     hr_Body resp = inl b -> hr_StatusCode resp < 400 ->
     exists r, fst (handleOutcome env c ctx method url result maxAttempts attempt response
                      (inl resp) s) = StepReturn r).
Proof.
  split; [|split; [|split]].
  - intros. apply handleOutcome_http; assumption.
  - apply retryHTTP_spec.
  - intros. apply doWithOptions_http_loop; assumption.
  - intros. eapply handleOutcome_success; eassumption.
Qed.

(** C4 (the code diverges): ParseRetryAfter does not reject negative
    integers, and `time.Duration(seconds) * time.Second` wraps around: "-5"
    gives -5s, "9223372037" a negative duration, "18446744074" gives
    290448384ns; "120" gives 120s. In the executor, after a retryable status
    >= 400, the wait is the parsed Retry-After when it is positive and the
    policy's backoff otherwise. *)
Theorem retry_after_parse_and_override :
  ParseRetryAfter "-5" = -5 * Second /\
  ParseRetryAfter "9223372037" < 0 /\
  ParseRetryAfter "18446744074" = 290448384 /\
  ParseRetryAfter "120" = 120 * Second /\
  (forall c p ctx method url result maxAttempts attempt response resp b s,
     retryPolicy c = Some p -> hr_Body resp = inl b -> 400 <= hr_StatusCode resp ->
     retryHTTP c maxAttempts attempt (hr_StatusCode resp) = true ->
     snd (snd (handleOutcome env c ctx method url result maxAttempts attempt response (inl resp) s)) =
     snd s ++ [EvWait ctx (let v := ParseRetryAfter (Hdr.Get (hr_Header resp) "Retry-After") in
                           if 0 <? v then v else fst (Backoff env p attempt (fst s)))]).
Proof.
  split; [vm_compute; reflexivity|]. split; [vm_compute; reflexivity|].
  split; [vm_compute; reflexivity|]. split; [vm_compute; reflexivity|].
  intros c p ctx method url result maxAttempts attempt response resp b s Hp Hb Hc Hr.
  unfold handleOutcome. rewrite Hb. cbv zeta.
  replace (hr_StatusCode resp >=? 400) with true by (symmetry; apply Z.geb_le; lia).
  rewrite Hp, Hr. unfold bind, lift, waitForRetry, emit, ret. cbn.
  destruct (Backoff env p attempt (fst s)) as [d w1]. cbn.
  destruct (String.eqb (Hdr.Get (hr_Header resp) "Retry-After") "") eqn:Ee.
  - apply String.eqb_eq in Ee. rewrite Ee. reflexivity.
  - rewrite Z.gtb_ltb. reflexivity.
Qed.

(** C6: a run emits exactly one body encoding, before anything else of the
    run, whatever the number of attempts; every request handed to the
    middleware chain (the code's `transport(req)`) carries the same body
    bytes, the bytes EncodeBody produced (or io.ReadAll read once from a
    caller's reader); and the innermost `c.httpClient.Do` receives those
    bytes on every attempt when the middlewares hand the body on unchanged
    (for instance when there are none). *)
Theorem body_encoded_once c ctx method path body result opts s :
  let '(_, s') := doWithOptions env c ctx method path body result opts s in
  exists bb l,
    snd s' = snd s ++ EvEncode :: l /\
    ~ In EvEncode l /\
    bytesFixedBy (EncodeBody env body) bb /\
    (forall a r, In (EvAttempt a r) l -> rq_Body r = bb) /\
    (Forall bodyPreserving (middlewares c) -> forall r, In (EvTransport r) l -> rq_Body r = bb).
Proof.
  rewrite doWithOptions_unfold.
  pose proof (prepare_spec c ctx method path body opts s) as Hs.
  destruct (prepare env c ctx method path body opts s) as [[r|ctx' cfg u bb ct] s1].
  - destruct Hs as [[l1 [E1 F1]] _].
    rewrite List.Forall_forall in F1.
    exists (match EncodeBody env body with
            | inl (Some (ReaderBytes b), _) => Some b
            | _ => None
            end), l1.
    split; [exact E1|]. split; [|split; [|split]].
    + intros H. specialize (F1 _ H). discriminate F1.
    + destruct (EncodeBody env body) as [[[[b|rid]|] ct]|e]; simpl; trivial.
    + intros a r' H. specialize (F1 _ H). discriminate F1.
    + intros _ r' H. specialize (F1 _ H). discriminate F1.
  - destruct Hs as [[l1 [E1 F1]] [_ [_ [_ [_ Hbb]]]]].
    rewrite List.Forall_forall in F1.
    set (P1 := fun e => match e with
                        | EvEncode => False
                        | EvAttempt _ r => rq_Body r = bb
                        | _ => True
                        end).
    set (P2 := fun e => match e with
                        | EvEncode => False
                        | EvAttempt _ r => rq_Body r = bb
                        | EvTransport r => rq_Body r = bb
                        | _ => True
                        end).
    assert (G1 : grows P1 (attemptLoop env c ctx' method u body result cfg bb ct
                             (maxAttemptsOf c) (Z.to_nat (maxAttemptsOf c)) 1 None None)).
    { apply grows_attemptLoop.
      - intros a r Hr _. exact Hr.
      - intros r _. apply grows_chain. intros r'. apply grows_baseTransport. exact I.
      - intros d. exact I. }
    assert (G2 : Forall bodyPreserving (middlewares c) ->
                 grows P2 (attemptLoop env c ctx' method u body result cfg bb ct
                             (maxAttemptsOf c) (Z.to_nat (maxAttemptsOf c)) 1 None None)).
    { intros Hpres. apply grows_attemptLoop.
      - intros a r Hr _. exact Hr.
      - intros r Hr. apply (grows_chain_pres P2 bb); [exact Hpres| |exact Hr].
        intros r' Hr'. apply grows_baseTransport. exact Hr'.
      - intros d. exact I. }
    destruct (G1 s1) as [l2 [E2 F2]].
    destruct (attemptLoop env c ctx' method u body result cfg bb ct (maxAttemptsOf c)
                (Z.to_nat (maxAttemptsOf c)) 1 None None s1) as [res s'] eqn:Erun.
    cbn [snd] in E2. rewrite List.Forall_forall in F2.
    exists bb, (l1 ++ l2). split; [|split; [|split; [|split]]].
    + rewrite E2, E1, <- app_assoc. reflexivity.
    + intros H. apply in_app_or in H as [H|H].
      * specialize (F1 _ H). discriminate F1.
      * exact (F2 _ H).
    + exact Hbb.
    + intros a r H. apply in_app_or in H as [H|H].
      * specialize (F1 _ H). discriminate F1.
      * exact (F2 _ H).
    + intros Hpres r H. apply in_app_or in H as [H|H].
      * specialize (F1 _ H). discriminate F1.
      * destruct (G2 Hpres s1) as [l3 [E3 F3]]. rewrite Erun in E3. cbn [snd] in E3.
        rewrite E2 in E3. apply app_inv_head in E3. subst l3.
        rewrite List.Forall_forall in F3. exact (F3 _ H).
Qed.

(** C7: with middlewares [A; B], an attempt runs A's logic before `next`,
    then B's, then the transport, then B's logic after `next`, then A's:
    the first middleware is the outermost wrapper. *)
Theorem middleware_order (preA preB : Request -> W -> W) (postA postB : Outcome -> W -> W)
    (t : @RoundTripFunc W) r s :
  buildChain [mkMw preA postA; mkMw preB postB] t r s =
  let '(o, s2) := t r (preB r (preA r (fst s)), snd s) in
  (o, (postA o (postB o (fst s2)), snd s2)).
Proof.
  destruct s as [w l]. unfold buildChain, mkMw. cbn. unfold bind, ret. cbn [fst snd].
  destruct (t r (preB r (preA r w), l)) as [o [w2 l2]]. reflexivity.
Qed.

(** C8 (the code diverges): when a response below 400 has a non-empty body,
    a result target is given and json.Unmarshal fails, the executor returns
    the Response with json.Unmarshal's own error, not an httpclient.Error of
    kind Parse. *)
Theorem decode_failure_unclassified c ctx method url t maxAttempts attempt response resp b je s :
  hr_Body resp = inl b -> hr_StatusCode resp < 400 -> b <> [] ->
  jsonUnmarshal env b t = Some je ->
  fst (handleOutcome env c ctx method url (Some t) maxAttempts attempt response (inl resp) s) =
  StepReturn (Some (toResponse resp b), Some (ErrJSON je)).
Proof.
  intros Hb Hc Hne Hj. unfold handleOutcome. rewrite Hb. cbv zeta.
  replace (hr_StatusCode resp >=? 400) with false
    by (symmetry; rewrite Z.geb_leb; apply Z.leb_gt; lia).
  replace (negb (Nat.eqb (length b) 0)) with true
    by (destruct b; [contradiction | reflexivity]).
  rewrite Hj. reflexivity.
Qed.

Lemma attemptLoop_with_timeout c t ctx method url body result cfg bb ct maxAttempts :
  forall fuel attempt response lastErr s,
  attemptLoop env (with_timeout c t) ctx method url body result cfg bb ct maxAttempts
    fuel attempt response lastErr s =
  attemptLoop env c ctx method url body result cfg bb ct maxAttempts fuel attempt response lastErr s.
Proof.
  intros fuel. induction fuel as [|fuel IH]; intros attempt response lastErr s; [reflexivity|].
  cbn [attemptLoop]. unfold bind.
  change (attemptBody env (with_timeout c t) ctx method url body result cfg bb ct maxAttempts
            attempt response s)
    with (attemptBody env c ctx method url body result cfg bb ct maxAttempts attempt response s).
  destruct (attemptBody env c ctx method url body result cfg bb ct maxAttempts attempt response s)
    as [[response' lastErr'|r] s1]; [apply IH | reflexivity].
Qed.

(** C9 (the code diverges): the client's Timeout field is never read, so it
    bounds nothing; a run of a client equals the run of the same client with
    any other Timeout. Every request handed to the chain and every wait of a
    run share one context: the caller's when no per-request timeout is set,
    and one context derived once with a deadline when WithRequestTimeout
    sets a positive one. *)
Theorem client_timeout_unused c t ctx method path body result opts s :
  doWithOptions env (with_timeout c t) ctx method path body result opts s =
  doWithOptions env c ctx method path body result opts s /\
  let '(_, s') := doWithOptions env c ctx method path body result opts s in
  exists ctx' l,
    snd s' = snd s ++ EvEncode :: l /\
    (forall a r, In (EvAttempt a r) l -> rq_Context r = ctx') /\
    (forall c' d, In (EvWait c' d) l -> c' = ctx') /\
    (cfg_timeout (cfgOf opts) <= 0 -> ctx' = ctx) /\
    (0 < cfg_timeout (cfgOf opts) -> exists d, ctx' = CtxWithDeadline ctx d).
Proof.
  split.
  - rewrite !doWithOptions_unfold.
    change (prepare env (with_timeout c t) ctx method path body opts s)
      with (prepare env c ctx method path body opts s).
    destruct (prepare env c ctx method path body opts s) as [[r|ctx' cfg u bb ct] s1];
      [reflexivity|].
    apply attemptLoop_with_timeout.
  - rewrite doWithOptions_unfold.
    pose proof (prepare_spec c ctx method path body opts s) as Hs.
    destruct (prepare env c ctx method path body opts s) as [[r|ctx' cfg u bb ct] s1].
    + destruct Hs as [[l1 [E1 F1]] _]. rewrite List.Forall_forall in F1.
      exists (if 0 <? cfg_timeout (cfgOf opts) then CtxWithDeadline ctx 0 else ctx), l1.
      split; [exact E1|]. split; [|split; [|split]].
      * intros a r' H. specialize (F1 _ H). discriminate F1.
      * intros c' d H. specialize (F1 _ H). discriminate F1.
      * intros H. replace (0 <? cfg_timeout (cfgOf opts)) with false
          by (symmetry; apply Z.ltb_ge; exact H). reflexivity.
      * intros H. replace (0 <? cfg_timeout (cfgOf opts)) with true
          by (symmetry; apply Z.ltb_lt; exact H). eexists; reflexivity.
    + destruct Hs as [[l1 [E1 F1]] [Hcfg [_ [Hpos [Hneg _]]]]].
      rewrite List.Forall_forall in F1. subst cfg.
      set (P := fun e => match e with
                         | EvEncode => False
                         | EvAttempt _ r => rq_Context r = ctx'
                         | EvWait c' _ => c' = ctx'
                         | _ => True
                         end).
      assert (G : grows P (attemptLoop env c ctx' method u body result (cfgOf opts) bb ct
                             (maxAttemptsOf c) (Z.to_nat (maxAttemptsOf c)) 1 None None)).
      { apply grows_attemptLoop.
        - intros a r _ Hr. exact Hr.
        - intros r _. apply grows_chain. intros r'. apply grows_baseTransport. exact I.
        - intros d. reflexivity. }
      destruct (G s1) as [l2 [E2 F2]].
      destruct (attemptLoop env c ctx' method u body result (cfgOf opts) bb ct (maxAttemptsOf c)
                  (Z.to_nat (maxAttemptsOf c)) 1 None None s1) as [res s'].
      cbn [snd] in E2. rewrite List.Forall_forall in F2.
      exists ctx', (l1 ++ l2). split; [|split; [|split; [|split]]].
      * rewrite E2, E1, <- app_assoc. reflexivity.
      * intros a r H. apply in_app_or in H as [H|H].
        -- specialize (F1 _ H). discriminate F1.
        -- exact (F2 _ H).
      * intros c' d H. apply in_app_or in H as [H|H].
        -- specialize (F1 _ H). discriminate F1.
        -- exact (F2 _ H).
      * exact Hneg.
      * exact Hpos.
Qed.

(** C10: with a retry policy whose MaxAttempts is 0 or negative, a run makes
    no attempt: no request reaches the middleware chain or the transport.
    When the run gets past body encoding and rate limiting, doWithOptions
    returns a nil Response and a nil error; an earlier failure is returned
    as it is. *)
Theorem nonpositive_max_attempts c p ctx method path body result opts s :
  retryPolicy c = Some p -> MaxAttempts p <= 0 ->
  let '(res, s') := doWithOptions env c ctx method path body result opts s in
  (exists l, snd s' = snd s ++ EvEncode :: l /\ count_attempts l = O /\ count_transport l = O) /\
  match fst (prepare env c ctx method path body opts s) with
  | PrepLoop _ _ _ _ _ => res = (None, None)
  | PrepReturn r => res = r
  end.
Proof.
  intros Hp Hmax. rewrite doWithOptions_unfold.
  pose proof (prepare_spec c ctx method path body opts s) as Hs.
  destruct (prepare env c ctx method path body opts s) as [[r|ctx' cfg u bb ct] s1];
    destruct Hs as [[l1 [E1 F1]] _]; apply count_ratelimits in F1 as [C1 C2].
  - split; [|reflexivity]. exists l1. auto.
  - unfold maxAttemptsOf. rewrite Hp.
    replace (Z.to_nat (MaxAttempts p)) with O by lia. cbn.
    split; [|reflexivity]. exists l1. auto.
Qed.

End Grows.

(** Runs against the fixed servers of [Fixtures]. *)

Definition unavailable : list Byte.byte := String.list_byte_of_string "unavailable".
Definition badRequest : list Byte.byte := String.list_byte_of_string "bad request".
Definition itemsURL : string := "https://api.example.com/items".

Lemma http_status_retry_decision_witness :
  (let '(res, s') := doWithOptions (Fixtures.serverEnv Fixtures.resp503)
                       (Fixtures.testClient (Some (Fixtures.withMaxAttempts 3)))
                       Fixtures.background "GET" "/items" None None [] Fixtures.initial in
   exists l, snd s' = snd Fixtures.initial ++ l /\
     (ShouldRetry (Fixtures.withMaxAttempts 3) 503 = true ->
        count_attempts l = 3%nat /\
        res = (Some (toResponse Fixtures.resp503 unavailable),
               Some (httpError Fixtures.resp503 unavailable "GET" itemsURL 3))) /\
     (ShouldRetry (Fixtures.withMaxAttempts 3) 503 = false ->
        count_attempts l = 1%nat /\
        res = (Some (toResponse Fixtures.resp503 unavailable),
               Some (httpError Fixtures.resp503 unavailable "GET" itemsURL 1)))) /\
  (let '(res, s') := doWithOptions (Fixtures.serverEnv Fixtures.resp400)
                       (Fixtures.testClient (Some (Fixtures.withMaxAttempts 3)))
                       Fixtures.background "GET" "/items" None None [] Fixtures.initial in
   exists l, snd s' = snd Fixtures.initial ++ l /\
     (ShouldRetry (Fixtures.withMaxAttempts 3) 400 = true ->
        count_attempts l = 3%nat /\
        res = (Some (toResponse Fixtures.resp400 badRequest),
               Some (httpError Fixtures.resp400 badRequest "GET" itemsURL 3))) /\
     (ShouldRetry (Fixtures.withMaxAttempts 3) 400 = false ->
        count_attempts l = 1%nat /\
        res = (Some (toResponse Fixtures.resp400 badRequest),
               Some (httpError Fixtures.resp400 badRequest "GET" itemsURL 1)))).
Proof.
  split.
  - exact (proj1 (proj2 (proj2 (http_status_retry_decision (Fixtures.serverEnv Fixtures.resp503))))
             (Fixtures.testClient (Some (Fixtures.withMaxAttempts 3))) (Fixtures.withMaxAttempts 3)
             Fixtures.background "GET" "/items" None None [] Fixtures.initial
             Fixtures.resp503 unavailable
             eq_refl ltac:(vm_compute; congruence) eq_refl eq_refl (fun _ => eq_refl)
             (fun _ _ => eq_refl) eq_refl ltac:(vm_compute; congruence) ltac:(vm_compute; reflexivity)).
  - exact (proj1 (proj2 (proj2 (http_status_retry_decision (Fixtures.serverEnv Fixtures.resp400))))
             (Fixtures.testClient (Some (Fixtures.withMaxAttempts 3))) (Fixtures.withMaxAttempts 3)
             Fixtures.background "GET" "/items" None None [] Fixtures.initial
             Fixtures.resp400 badRequest
             eq_refl ltac:(vm_compute; congruence) eq_refl eq_refl (fun _ => eq_refl)
             (fun _ _ => eq_refl) eq_refl ltac:(vm_compute; congruence) ltac:(vm_compute; reflexivity)).
Defined.

Definition notJSON : list Byte.byte := String.list_byte_of_string "not json".

Lemma decode_failure_unclassified_witness :
  fst (handleOutcome (Fixtures.serverEnv Fixtures.resp200) (Fixtures.testClient None)
         Fixtures.background "GET" itemsURL (Some tt) 1 1 None (inl Fixtures.resp200) Fixtures.initial) =
  StepReturn (Some (toResponse Fixtures.resp200 notJSON),
              Some (ErrJSON (JSONSyntaxError 2 "invalid character 'o' in literal null (expecting 'u')"))) /\
  fst (doWithOptions (Fixtures.serverEnv Fixtures.resp200) (Fixtures.testClient None)
         Fixtures.background "GET" "/items" None (Some tt) [] Fixtures.initial) =
  (Some (toResponse Fixtures.resp200 notJSON),
   Some (ErrJSON (JSONSyntaxError 2 "invalid character 'o' in literal null (expecting 'u')"))).
Proof.
  split.
  - apply (decode_failure_unclassified (Fixtures.serverEnv Fixtures.resp200)); 
      [reflexivity | vm_compute; reflexivity | discriminate | reflexivity].
  - vm_compute. reflexivity.
Defined.

Lemma nonpositive_max_attempts_witness :
  let '(res, s') := doWithOptions (Fixtures.serverEnv Fixtures.resp503)
                      (Fixtures.testClient (Some (Fixtures.withMaxAttempts 0)))
                      Fixtures.background "GET" "/items" None None [] Fixtures.initial in
  (exists l, snd s' = snd Fixtures.initial ++ EvEncode :: l /\
             count_attempts l = O /\ count_transport l = O) /\
  match fst (prepare (Fixtures.serverEnv Fixtures.resp503)
               (Fixtures.testClient (Some (Fixtures.withMaxAttempts 0)))
               Fixtures.background "GET" "/items" None [] Fixtures.initial) with
  | PrepLoop _ _ _ _ _ => res = (None, None)
  | PrepReturn r => res = r
  end.
Proof.
  apply (nonpositive_max_attempts (Fixtures.serverEnv Fixtures.resp503)
           (Fixtures.testClient (Some (Fixtures.withMaxAttempts 0))) (Fixtures.withMaxAttempts 0));
    [reflexivity | vm_compute; congruence].
Defined.

(** A client built with a 30s Timeout, three attempts against a 503 server
    and the caller's background context: no attempt's request carries a
    deadline. *)
Lemma client_timeout_example :
  let '(_, s') := doWithOptions (Fixtures.serverEnv Fixtures.resp503)
                    (Fixtures.testClient (Some (Fixtures.withMaxAttempts 3)))
                    Fixtures.background "GET" "/items" None None [] Fixtures.initial in
  count_attempts (snd s') = 3%nat /\
  Forall (fun e => match e with
                   | EvAttempt _ r => rq_Context r = Fixtures.background /\ Deadline (rq_Context r) = None
                   | _ => True
                   end) (snd s').
Proof.
  vm_compute. split; [reflexivity|]. repeat constructor.
Qed.

(** Two middlewares that log around `next`, on a world that is a trace. *)
Definition logMw (name : string) : @Middleware (list string) :=
  mkMw (fun _ w => w ++ [String.append name " before"]) (fun _ w => w ++ [String.append name " after"]).

Definition loggingTransport : @RoundTripFunc (list string) :=
  fun r s => (inl Fixtures.resp200, (fst s ++ ["transport"], snd s)).

Definition someRequest : Request := {|
  rq_Method := "GET"; rq_URL := itemsURL; rq_Header := ∅; rq_Body := None;
  rq_Context := Fixtures.background |}.

Lemma middleware_order_witness :
  fst (snd (buildChain [logMw "A"; logMw "B"] loggingTransport someRequest ([], []))) =
  ["A before"; "B before"; "transport"; "B after"; "A after"] /\
  buildChain [logMw "A"; logMw "B"] loggingTransport someRequest ([], []) =
  let '(o, s2) := loggingTransport someRequest
                    ((fun _ w => w ++ ["B before"]) someRequest
                       ((fun _ w => w ++ ["A before"]) someRequest (fst ([] : list string, [] : list Event))),
                     snd ([] : list string, [] : list Event)) in
  (o, ((fun _ w => w ++ ["A after"]) o ((fun _ w => w ++ ["B after"]) o (fst s2)), snd s2)).
Proof.
  split.
  - vm_compute. reflexivity.
  - exact (middleware_order (fun _ w => w ++ ["A before"]) (fun _ w => w ++ ["B before"])
             (fun _ w => w ++ ["A after"]) (fun _ w => w ++ ["B after"])
             loggingTransport someRequest ([], [])).
Defined.

End ExecFacts.

Module HdrFacts.
Import Strconv Hdr Views.

Lemma byte_of_ascii_of_nat n : (n < 256)%nat -> byte_of (ascii_of_nat n) = Z.of_nat n.
Proof. intros H. unfold byte_of. rewrite nat_ascii_embedding by exact H. reflexivity. Qed.

Lemma byte_of_lt c : 0 <= byte_of c < 256.
Proof. unfold byte_of. pose proof (nat_ascii_bounded c). lia. Qed.

Ltac zcases :=
  repeat match goal with |- context [?a <=? ?b] => destruct (Z.leb_spec a b) end;
  simpl.

Lemma canon_char_idem u c : canon_char u (canon_char u c) = canon_char u c.
Proof.
  unfold canon_char. pose proof (byte_of_lt c).
  destruct u; simpl;
    [destruct (Z.leb_spec 97 (byte_of c)), (Z.leb_spec (byte_of c) 122)
    |destruct (Z.leb_spec 65 (byte_of c)), (Z.leb_spec (byte_of c) 90)]; simpl;
    try reflexivity;
    try (rewrite byte_of_ascii_of_nat by lia; rewrite Z2Nat.id by lia);
    zcases; first [reflexivity | lia].
Qed.

Lemma canon_loop_cons u c s :
  canon_loop u (String c s) = String (canon_char u c) (canon_loop (Ascii.eqb (canon_char u c) "-"%char) s).
Proof. reflexivity. Qed.

Lemma canon_loop_idem s : forall u, canon_loop u (canon_loop u s) = canon_loop u s.
Proof.
  induction s as [|c s IH]; intros u; [reflexivity|].
  rewrite !canon_loop_cons, canon_char_idem, IH. reflexivity.
Qed.

Lemma valid_canon_char u c : valid_field_byte c = true -> valid_field_byte (canon_char u c) = true.
Proof.
  intros H. unfold canon_char. pose proof (byte_of_lt c).
  destruct u; simpl;
    [destruct (Z.leb_spec 97 (byte_of c)), (Z.leb_spec (byte_of c) 122)
    |destruct (Z.leb_spec 65 (byte_of c)), (Z.leb_spec (byte_of c) 90)]; simpl;
    try exact H;
    unfold valid_field_byte; try (rewrite byte_of_ascii_of_nat by lia; rewrite Z2Nat.id by lia);
    zcases; first [reflexivity | rewrite ?orb_true_r; reflexivity | lia].
Qed.

Lemma all_valid_canon_loop s : forall u, all_valid s = true -> all_valid (canon_loop u s) = true.
Proof.
  induction s as [|c s IH]; intros u H; [reflexivity|].
  simpl in H. apply andb_true_iff in H as [H1 H2].
  rewrite canon_loop_cons. simpl. rewrite valid_canon_char by exact H1. apply IH. exact H2.
Qed.

Lemma Canonical_idem s : CanonicalMIMEHeaderKey (CanonicalMIMEHeaderKey s) = CanonicalMIMEHeaderKey s.
Proof.
  unfold CanonicalMIMEHeaderKey. destruct (all_valid s) eqn:E.
  - rewrite all_valid_canon_loop by exact E. apply canon_loop_idem.
  - rewrite E. reflexivity.
Qed.

End HdrFacts.

Module AH.
Import Exec Build Strconv HdrFacts Hdr.

Lemma canon_content_type : CanonicalMIMEHeaderKey "Content-Type" = "Content-Type".
Proof. vm_compute. reflexivity. Qed.

Lemma Get_Set h k k' v :
  Get (Set_ h k v) k' =
  if String.eqb (CanonicalMIMEHeaderKey k) (CanonicalMIMEHeaderKey k') then v else Get h k'.
Proof.
  unfold Get, Set_. unfold Header in *. destruct (String.eqb_spec (CanonicalMIMEHeaderKey k) (CanonicalMIMEHeaderKey k')) as [E|E].
  - rewrite E. rewrite lookup_insert_eq. reflexivity.
  - rewrite lookup_insert_ne by exact E. reflexivity.
Qed.

Lemma foldl_Add_lookup k vs : CanonicalMIMEHeaderKey k = k ->
  forall (a : Header) k',
  foldl (fun a v => Add a k v) a vs !! k' =
  if decide (k' = k) then
    match a !! k, vs with None, [] => None | o, _ => Some (default [] o ++ vs) end
  else a !! k'.
Proof.
  intros Hk. induction vs as [|v vs IH]; intros a k'.
  - simpl. destruct (decide (k' = k)) as [->|]; [|reflexivity].
    destruct (a !! k) eqn:E; [|reflexivity]. simpl. rewrite app_nil_r. reflexivity.
  - simpl. rewrite IH. unfold Add. rewrite Hk. unfold Header in *.
    destruct (decide (k' = k)) as [->|Hne].
    + rewrite lookup_insert_eq. destruct (a !! k); simpl; rewrite <- ?app_assoc; reflexivity.
    + rewrite lookup_insert_ne by congruence. reflexivity.
Qed.

Lemma foldl_Set_lookup k vs : CanonicalMIMEHeaderKey k = k ->
  forall (a : Header) k',
  foldl (fun a v => Set_ a k v) a vs !! k' =
  if decide (k' = k) then match last vs with Some v => Some [v] | None => a !! k end
  else a !! k'.
Proof.
  intros Hk. induction vs as [|v vs IH]; intros a k'.
  - simpl. destruct (decide (k' = k)) as [->|]; reflexivity.
  - simpl. rewrite IH. unfold Set_. rewrite Hk. unfold Header in *.
    destruct (decide (k' = k)) as [->|Hne].
    + rewrite lookup_insert_eq. destruct vs as [|v' vs']; [reflexivity|]. change (last (v :: v' :: vs')) with (last (v' :: vs')).
      destruct (last (v' :: vs')) eqn:E; [reflexivity|]. apply last_None in E; discriminate.
    + rewrite lookup_insert_ne by congruence. reflexivity.
Qed.

Lemma addAll_list (l : list (string * list string)) :
  NoDup l.*1 -> (forall k vs, (k, vs) ∈ l -> CanonicalMIMEHeaderKey k = k) ->
  forall k, foldr (uncurry (fun k vs acc => foldl (fun a v => Add a k v) acc vs)) (∅ : Header) l !! k =
            match (list_to_map l : gmap string (list string)) !! k with Some [] | None => None | Some vs => Some vs end.
Proof.
  induction l as [|[k0 vs0] l IH]; intros Hnd Hc k; [reflexivity|].
  simpl. unfold Header in *. apply NoDup_cons in Hnd as [Hn Hnd].
  rewrite foldl_Add_lookup by (eapply Hc; left).
  destruct (decide (k = k0)) as [->|Hne].
  - rewrite IH; [|exact Hnd|intros; eapply Hc; right; eassumption].
    rewrite lookup_insert_eq.
    replace ((list_to_map l : gmap string (list string)) !! k0) with (@None (list string))
      by (symmetry; apply not_elem_of_list_to_map_1; exact Hn).
    destruct vs0; reflexivity.
  - rewrite lookup_insert_ne by congruence. apply IH; [exact Hnd|].
    intros; eapply Hc; right; eassumption.
Qed.

Lemma setAll_list (l : list (string * list string)) (h : Header) :
  NoDup l.*1 -> (forall k vs, (k, vs) ∈ l -> CanonicalMIMEHeaderKey k = k) ->
  forall k, foldr (uncurry (fun k vs acc => foldl (fun a v => Set_ a k v) acc vs)) h l !! k =
            match (list_to_map l : gmap string (list string)) !! k ≫= last with Some v => Some [v] | None => h !! k end.
Proof.
  induction l as [|[k0 vs0] l IH]; intros Hnd Hc k; [reflexivity|].
  simpl. unfold Header in *. apply NoDup_cons in Hnd as [Hn Hnd].
  rewrite foldl_Set_lookup by (eapply Hc; left).
  destruct (decide (k = k0)) as [->|Hne].
  - rewrite lookup_insert_eq. simpl. destruct (last vs0); [reflexivity|].
    rewrite IH; [|exact Hnd|intros; eapply Hc; right; eassumption].
    replace ((list_to_map l : gmap string (list string)) !! k0) with (@None (list string))
      by (symmetry; apply not_elem_of_list_to_map_1; exact Hn). reflexivity.
  - rewrite lookup_insert_ne by congruence. apply IH; [exact Hnd|].
    intros; eapply Hc; right; eassumption.
Qed.

Lemma map_list_canon (m : Header) : canonicalKeys m ->
  forall k vs, (k, vs) ∈ map_to_list m -> CanonicalMIMEHeaderKey k = k.
Proof. intros Hm k vs H. apply elem_of_map_to_list in H. exact (Hm k vs H). Qed.

Lemma addAll_lookup (src : Header) : canonicalKeys src ->
  forall k, addAll src ∅ !! k = match src !! k with Some [] | None => None | Some vs => Some vs end.
Proof.
  intros Hs k. unfold addAll. unfold Header in *. rewrite map_fold_foldr.
  rewrite addAll_list; [|apply NoDup_fst_map_to_list|apply map_list_canon; exact Hs].
  rewrite list_to_map_to_list. reflexivity.
Qed.

Lemma setAll_lookup (src h : Header) : canonicalKeys src ->
  forall k, setAll src h !! k = match src !! k ≫= last with Some v => Some [v] | None => h !! k end.
Proof.
  intros Hs k. unfold setAll. unfold Header in *. rewrite map_fold_foldr.
  rewrite setAll_list; [|apply NoDup_fst_map_to_list|apply map_list_canon; exact Hs].
  rewrite list_to_map_to_list. reflexivity.
Qed.

Lemma Get_addAll (src : Header) k : canonicalKeys src -> Get (addAll src ∅) k = Get src k.
Proof.
  intros Hs. unfold Get. rewrite addAll_lookup by exact Hs.
  destruct (src !! CanonicalMIMEHeaderKey k) as [[|v vs]|]; reflexivity.
Qed.

Lemma Get_setAll (src h : Header) k : canonicalKeys src ->
  Get (setAll src h) k =
  match src !! CanonicalMIMEHeaderKey k ≫= last with Some v => v | None => Get h k end.
Proof.
  intros Hs. unfold Get at 1. rewrite setAll_lookup by exact Hs.
  destruct (src !! CanonicalMIMEHeaderKey k ≫= last); reflexivity.
Qed.

Lemma canonicalKeysb_sound h : Views.canonicalKeysb h = true -> Build.canonicalKeys h.
Proof.
  unfold Views.canonicalKeysb, Build.canonicalKeys. intros H k vs Hk.
  apply forallb_forall with (x := (k, vs)) in H.
  - apply String.eqb_eq in H. exact H.
  - apply (proj1 (list_elem_of_In _ _)), elem_of_map_to_list. exact Hk.
Qed.

(** X1 (doWithOptions, header layering): when the client's and the
    options' header keys are canonical, the value an attempt's request
    carries for a key is, for Content-Type, the per-request content type if
    set, else the body encoder's, else (when a body is given) the client's
    default; for any other key, or for Content-Type when none of these
    applies, the last per-request value for the key if there is one, else
    the client's default header. *)
Theorem attempt_headers {W ReaderId FormValues JSONValue : Type} (c : @Client W) cfg ct
    (body : option (@BodyValue ReaderId FormValues JSONValue)) k :
  canonicalKeys (headers c) -> canonicalKeys (cfg_headers cfg) ->
  let layered := match cfg_headers cfg !! CanonicalMIMEHeaderKey k ≫= last with
                 | Some v => v | None => Get (headers c) k end in
  Get (attemptHeaders c cfg ct body) k =
  if String.eqb (CanonicalMIMEHeaderKey k) "Content-Type" then
    (if negb (String.eqb (cfg_contentType cfg) "") then cfg_contentType cfg
     else if negb (String.eqb ct "") then ct
     else if bool_decide (is_Some body) then defaultContentType c
     else layered)
  else layered.
Proof.
  intros Hc Hcfg layered.
  assert (Hl : Get (setAll (cfg_headers cfg) (addAll (headers c) ∅)) k = layered).
  { rewrite Get_setAll by exact Hcfg. unfold layered.
    destruct (cfg_headers cfg !! CanonicalMIMEHeaderKey k ≫= last); [reflexivity|].
    apply Get_addAll. exact Hc. }
  unfold attemptHeaders.
  destruct (String.eqb (cfg_contentType cfg) "") eqn:E1;
  [destruct (String.eqb ct "") eqn:E2; [destruct (bool_decide (is_Some body)) eqn:E3|]|]; simpl;
  rewrite ?Get_Set, ?canon_content_type;
  destruct (String.eqb_spec "Content-Type" (CanonicalMIMEHeaderKey k)) as [E|E];
  rewrite ?E, ?String.eqb_refl; rewrite ?Hl; try reflexivity;
  replace (String.eqb (CanonicalMIMEHeaderKey k) "Content-Type") with false
    by (symmetry; apply String.eqb_neq; congruence); reflexivity.
Qed.

Lemma Get_Set_same h k v : Get (Set_ h k v) k = v.
Proof. rewrite Get_Set, String.eqb_refl. reflexivity. Qed.

(** X2 (doWithOptions with EncodeBody): with no per-request content type,
    a successfully encoded body sets Content-Type to
    application/x-www-form-urlencoded for url.Values, application/json for
    values that go through json.Marshal, and the client's default content
    type for []byte, string and io.Reader bodies. *)
Theorem content_type_by_body {W ReaderId FormValues JSONValue Target : Type}
    (env : @Env W ReaderId FormValues JSONValue Target) (c : @Client W) cfg bv r ct :
  EncodeBody env (Some bv) = inl (r, ct) -> cfg_contentType cfg = "" ->
  Get (attemptHeaders c cfg ct (Some bv)) "Content-Type" =
  match bv with
  | BodyForm _ => "application/x-www-form-urlencoded"
  | BodyOther _ => "application/json"
  | _ => defaultContentType c
  end.
Proof.
  intros He Hcfg. unfold attemptHeaders. rewrite Hcfg. simpl.
  destruct bv as [b|s|rd|v|v]; simpl in He.
  - injection He as _ <-. simpl. apply Get_Set_same.
  - injection He as _ <-. simpl. apply Get_Set_same.
  - injection He as _ <-. simpl. apply Get_Set_same.
  - injection He as _ <-. simpl. apply Get_Set_same.
  - destruct (jsonMarshal env v); [|discriminate]. injection He as _ <-. simpl. apply Get_Set_same.
Qed.

End AH.

Module ShapeFacts.
Import Errors Retry StM Exec Views.

Section Y.
Context {W ReaderId FormValues JSONValue Target : Type}.
Context (env : @Env W ReaderId FormValues JSONValue Target).

Lemma yields_ret {S A} (P : A -> Prop) (a : A) : P a -> yields (S:=S) (ret a) P.
Proof. intros H s. exact H. Qed.

Lemma yields_bind {S A B} (Q : A -> Prop) (P : B -> Prop) (m : StM S A) (k : A -> StM S B) :
  yields m Q -> (forall a, Q a -> yields (k a) P) -> yields (bind m k) P.
Proof.
  intros Hm Hk s. unfold bind. specialize (Hm s). destruct (m s) as [a s']. apply Hk. exact Hm.
Qed.

Lemma yields_True {S A} (m : StM S A) : yields m (fun _ => True).
Proof. intros s. exact I. Qed.

Lemma yields_any {S A B} (P : B -> Prop) (m : StM S A) (k : A -> StM S B) :
  (forall a, yields (k a) P) -> yields (bind m k) P.
Proof. intros Hk. apply (yields_bind (fun _ => True)); [apply yields_True | intros a _; apply Hk]. Qed.

Lemma handleOutcome_shape c ctx method url result maxAttempts attempt response o :
  1 <= attempt <= maxAttempts ->
  yields (handleOutcome env c ctx method url result maxAttempts attempt response o)
         (stepShape maxAttempts attempt).
Proof.
  intros Ha. unfold handleOutcome.
  destruct o as [resp|err].
  - destruct (hr_Body resp) as [respBody|e]; [|apply yields_ret; exact I].
    destruct (hr_StatusCode resp >=? 400) eqn:Hs.
    + apply Z.geb_le in Hs.
      assert (Hr : resultShape maxAttempts
        (Some {| resp_StatusCode := hr_StatusCode resp; resp_Status := hr_Status resp;
                 resp_Headers := hr_Header resp; resp_Body := respBody |},
         Some (ErrClient (mkError ErrKindHTTP (hr_StatusCode resp) (hr_Status resp)
                 respBody (hr_Header resp) method url attempt None)))).
      { simpl. repeat split; lia. }
      destruct (retryPolicy c) as [p|] eqn:Hp; [|apply yields_ret; exact Hr].
      destruct (retryHTTP c maxAttempts attempt (hr_StatusCode resp)) eqn:Hrh;
        [|apply yields_ret; exact Hr].
      unfold retryHTTP in Hrh. rewrite Hp in Hrh. apply andb_prop in Hrh as [Hlt _].
      apply Z.ltb_lt in Hlt.
      apply yields_any; intros d. apply yields_any; intros _. apply yields_ret. exact Hlt.
    + assert (Hs' : hr_StatusCode resp < 400) by (rewrite Z.geb_leb in Hs; apply Z.leb_gt in Hs; lia).
      destruct result as [t|]; [|apply yields_ret; exact Hs'].
      destruct (negb (Nat.eqb (length respBody) 0)); [|apply yields_ret; exact Hs'].
      destruct (jsonUnmarshal env respBody t); apply yields_ret; exact Hs'.
  - destruct (retryPolicy c) as [p|]; [|apply yields_ret; exact I].
    destruct (attempt <? maxAttempts) eqn:Hlt; [|apply yields_ret; exact I].
    apply Z.ltb_lt in Hlt.
    apply yields_any; intros d. apply yields_any; intros _. apply yields_ret. exact Hlt.
Qed.

Lemma attemptBody_shape c ctx method url body result cfg bodyBytes contentType
    maxAttempts attempt response :
  1 <= attempt <= maxAttempts ->
  yields (attemptBody env c ctx method url body result cfg bodyBytes contentType
            maxAttempts attempt response) (stepShape maxAttempts attempt).
Proof.
  intros Ha. unfold attemptBody.
  destruct (NewRequestWithContext env ctx method url bodyBytes); [|apply yields_ret; exact I].
  apply yields_any; intros _. apply yields_any; intros o.
  apply handleOutcome_shape. exact Ha.
Qed.

Lemma attemptLoop_shape c ctx method url body result cfg bodyBytes contentType maxAttempts :
  forall fuel attempt response lastErr,
  Z.of_nat (S fuel) = maxAttempts - attempt + 1 -> 1 <= attempt ->
  yields (attemptLoop env c ctx method url body result cfg bodyBytes contentType
            maxAttempts (S fuel) attempt response lastErr) (resultShape maxAttempts).
Proof.
  induction fuel as [|fuel IH]; intros attempt response lastErr Hf Ha;
    cbn [attemptLoop];
    (apply (yields_bind (stepShape maxAttempts attempt));
     [apply attemptBody_shape; lia|]);
    intros [response' lastErr'|r] Hst; simpl in Hst;
    try (apply yields_ret; exact Hst).
  - lia.
  - apply (IH (attempt + 1) response' lastErr'); lia.
Qed.

Lemma prepare_shape c ctx method path body opts maxAttempts :
  yields (prepare env c ctx method path body opts)
    (fun pr => match pr with PrepReturn r => resultShape maxAttempts r | PrepLoop _ _ _ _ _ => True end).
Proof.
  unfold prepare. apply yields_any; intros _.
  destruct (EncodeBody env body) as [[bodyReader contentType]|e]; [|apply yields_ret; exact I].
  apply yields_any; intros [bodyBytes|e]; [|apply yields_ret; exact I].
  apply yields_any; intros [e|]; [apply yields_ret; exact I|].
  apply yields_any; intros ctx'. apply yields_ret. exact I.
Qed.

(** X3 (doWithOptions, return statements): every (response, error) pair
    doWithOptions returns is one of: no response with an error; no response
    and no error only when maxAttempts <= 0; a response with status >= 400
    and an HTTP-kind *Error that copies its status code, status, body and
    headers, has no wrapped error and an attempt count within 1..maxAttempts;
    a response with status < 400 and no error or a JSON decode error. *)
Theorem doWithOptions_shape c ctx method path body result opts :
  yields (doWithOptions env c ctx method path body result opts) (resultShape (maxAttemptsOf c)).
Proof.
  unfold doWithOptions.
  apply (yields_bind _ _ _ _ (prepare_shape c ctx method path body opts (maxAttemptsOf c))).
  intros [r|ctx' cfg reqURL bodyBytes contentType] Hp; [apply yields_ret; exact Hp|].
  destruct (Z.to_nat (maxAttemptsOf c)) as [|n] eqn:Hn.
  - apply yields_ret. simpl. lia.
  - apply attemptLoop_shape; lia.
Qed.

End Y.
End ShapeFacts.

Module ErrFacts.
Import Errors Retry StM Exec Obs Views Classify.

(** X4 (wrapError and the Error predicates): a wrapped transport error is
    an *Error with status 0 and attempt count 0, whose Unwrap is the
    original error; IsTimeout holds exactly when the original is (or wraps)
    context.DeadlineExceeded, IsNetwork exactly when it is context.Canceled
    and not a deadline, IsRetryable when it is either, and IsClientError and
    IsServerError never hold. *)
Theorem wrapError_classification err method url :
  exists e, wrapError err method url = ErrClient e /\
    IsTimeout e = IsDeadlineExceeded err /\
    IsNetwork e = negb (IsDeadlineExceeded err) && IsCanceled err /\
    IsRetryable e = IsDeadlineExceeded err || IsCanceled err /\
    Unwrap e = Some err /\ StatusCode e = 0 /\ Attempts e = 0 /\
    IsClientError e = false /\ IsServerError e = false /\
    IsDeadlineExceeded (ErrClient e) = IsDeadlineExceeded err /\
    IsCanceled (ErrClient e) = IsCanceled err.
Proof.
  eexists. split; [reflexivity|].
  unfold IsTimeout, IsNetwork, IsRetryable, Unwrap, IsClientError, IsServerError; simpl.
  destruct (IsDeadlineExceeded err), (IsCanceled err); simpl; repeat split.
Qed.

(** X5 (Error.IsStatus): IsStatus holds exactly when the error's status
    code is among the given codes. *)
Theorem IsStatus_In e codes : IsStatus e codes = true <-> In (StatusCode e) codes.
Proof.
  unfold IsStatus. induction codes as [|code codes IH]; simpl.
  - split; [discriminate | contradiction].
  - destruct (Z.eqb_spec (StatusCode e) code) as [->|Hne].
    + split; [intros _; left; reflexivity | reflexivity].
    + rewrite IH. split; [intros H; right; exact H | intros [H|H]; [congruence | exact H]].
Qed.

Section T.
Context {W ReaderId FormValues JSONValue Target : Type}.
Context (env : @Env W ReaderId FormValues JSONValue Target).

Lemma count_waits_ratelimits l ctx :
  Forall (fun e => e = EvRateLimit ctx) l -> count_wait_events l = O.
Proof. induction 1 as [|e l -> _ IH]; simpl; auto. Qed.

Lemma count_waits_app l1 l2 :
  count_wait_events (l1 ++ l2) = (count_wait_events l1 + count_wait_events l2)%nat.
Proof. induction l1 as [|[] l1 IH]; simpl; rewrite ?IH; reflexivity. Qed.

Section FailingServer.
Variables (c : @Client W) (ctx : Ctx) (method url : string)
  (body : option (@BodyValue ReaderId FormValues JSONValue))
  (result : option Target) (cfg : requestConfig) (bb : option (list Byte.byte))
  (ct : string) (maxAttempts : Z) (err : GoErr).
Hypotheses (Hmw : middlewares c = []) (Hm : validMethod method = true)
  (Hu : URLParseError env url = None) (Hdo : forall r w, fst (HTTPDo env r w) = inr err).

(** One attempt against a transport that always fails with [err]. *)
Lemma failing_step k attempt response lastErr s :
  let retry := match retryPolicy c with Some _ => attempt <? maxAttempts | None => false end in
  exists l s1, snd s1 = snd s ++ l /\ count_attempts l = 1%nat /\
    count_wait_events l = (if retry then 1 else 0)%nat /\
    attemptLoop env c ctx method url body result cfg bb ct maxAttempts (S k) attempt response lastErr s =
    if retry
    then attemptLoop env c ctx method url body result cfg bb ct maxAttempts k (attempt + 1)
           response (Some (wrapError err method url)) s1
    else ((None, Some (wrapError err method url)), s1).
Proof.
  intros retry. cbn [attemptLoop]. unfold attemptBody.
  rewrite (ExecFacts.NewRequest_ok env _ _ _ _ Hm Hu). rewrite Hmw.
  cbn [buildChain rev fold_left]. unfold baseTransport, bind, emit, lift. cbn [fst snd].
  set (req := withHeader _ _).
  destruct (HTTPDo env req (fst s)) as [o w1] eqn:Edo.
  assert (Ho : o = inr err) by (rewrite <- (Hdo req (fst s)), Edo; reflexivity). subst o.
  unfold handleOutcome. cbv zeta. unfold retry. destruct (retryPolicy c) as [p|].
  - destruct (attempt <? maxAttempts).
    + unfold waitForRetry, bind, lift, emit, ret. cbn [fst snd].
      destruct (Backoff env p attempt w1) as [d w2].
      refine (ex_intro _ [EvAttempt attempt req; EvTransport req; EvWait ctx d]
                (ex_intro _ _ (conj _ (conj eq_refl (conj eq_refl eq_refl))))).
      cbn [snd]. rewrite <- !app_assoc. reflexivity.
    + unfold ret. refine (ex_intro _ [EvAttempt attempt req; EvTransport req]
                (ex_intro _ _ (conj _ (conj eq_refl (conj eq_refl eq_refl))))).
      cbn [snd]. rewrite <- !app_assoc. reflexivity.
  - unfold ret. refine (ex_intro _ [EvAttempt attempt req; EvTransport req]
              (ex_intro _ _ (conj _ (conj eq_refl (conj eq_refl eq_refl))))).
    cbn [snd]. rewrite <- !app_assoc. reflexivity.
Qed.

Lemma failing_loop : 1 <= maxAttempts -> (retryPolicy c = None -> maxAttempts = 1) ->
  forall k attempt response lastErr s,
  (1 <= k)%nat -> 1 <= attempt -> attempt + Z.of_nat k = maxAttempts + 1 ->
  let '(res, s') := attemptLoop env c ctx method url body result cfg bb ct maxAttempts
                      k attempt response lastErr s in
  res = (None, Some (wrapError err method url)) /\
  exists l, snd s' = snd s ++ l /\ count_attempts l = k /\ count_wait_events l = (k - 1)%nat.
Proof.
  intros H1 Hnone. induction k as [|k IH]; intros attempt response lastErr s Hk H1a Ha; [lia|].
  destruct (failing_step k attempt response lastErr s) as [l [s1 [E1 [C1 [W1 Hstep]]]]].
  rewrite Hstep. destruct k as [|k].
  - replace (match retryPolicy c with Some _ => attempt <? maxAttempts | None => false end)
      with false in *.
    + split; [reflexivity|]. exists l. split; [exact E1|]. split; [exact C1|]. exact W1.
    + destruct (retryPolicy c); [|reflexivity]. symmetry. apply Z.ltb_ge. lia.
  - assert (Hr : match retryPolicy c with Some _ => attempt <? maxAttempts | None => false end = true).
    { destruct (retryPolicy c); [apply Z.ltb_lt; lia|]. specialize (Hnone eq_refl). lia. }
    rewrite Hr in W1 |- *.
    specialize (IH (attempt + 1) response (Some (wrapError err method url)) s1 ltac:(lia) ltac:(lia) ltac:(lia)).
    destruct (attemptLoop env c ctx method url body result cfg bb ct maxAttempts (S k)
                (attempt + 1) _ _ s1) as [res s'].
    destruct IH as [Hres [l2 [E2 [C2 W2]]]]. split; [exact Hres|].
    exists (l ++ l2). split; [|split].
    + rewrite E2, E1, app_assoc. reflexivity.
    + rewrite ExecFacts.count_app_attempts, C1, C2. reflexivity.
    + rewrite count_waits_app, W1, W2. simpl. lia.
Qed.

End FailingServer.

(** X6 (doWithOptions, transport errors): against a transport that always
    fails with the same error, with no middlewares, a run that reaches the
    attempt loop with maxAttempts >= 1 makes exactly maxAttempts attempts
    (one without a retry policy, whatever the error), waits between them
    maxAttempts - 1 times, and returns no response and the last transport
    error as wrapped by wrapError. *)
Theorem transport_failure_run c ctx method path body result opts s err :
  middlewares c = [] -> validMethod method = true -> (forall u, URLParseError env u = None) ->
  (forall r w, fst (HTTPDo env r w) = inr err) -> 1 <= maxAttemptsOf c ->
  prepLoops (fst (prepare env c ctx method path body opts s)) = true ->
  let url := ResolveURL env (baseURL c) path (cfg_query (cfgOf opts)) in
  let '(res, s') := doWithOptions env c ctx method path body result opts s in
  res = (None, Some (wrapError err method url)) /\
  exists l, snd s' = snd s ++ l /\ count_attempts l = Z.to_nat (maxAttemptsOf c) /\
    count_wait_events l = Z.to_nat (maxAttemptsOf c - 1).
Proof.
  intros Hmw Hm Hu Hdo Hmax Hloop url.
  rewrite ExecFacts.doWithOptions_unfold.
  pose proof (ExecFacts.prepare_spec env c ctx method path body opts s) as Hs.
  destruct (prepare env c ctx method path body opts s) as [[r|ctx' cfg u bb ct] s1];
    [discriminate Hloop|].
  destruct Hs as [[l1 [E1 F1]] [_ [Huu _]]].
  pose proof (count_waits_ratelimits _ _ F1) as W1.
  apply ExecFacts.count_ratelimits in F1 as [C1 _].
  pose proof (failing_loop c ctx' method u body result cfg bb ct (maxAttemptsOf c) err
                Hmw Hm (Hu u) Hdo Hmax
                ltac:(unfold maxAttemptsOf; intros ->; reflexivity)
                (Z.to_nat (maxAttemptsOf c)) 1 None None s1 ltac:(lia) ltac:(lia) ltac:(lia)) as H.
  destruct (attemptLoop env c ctx' method u body result cfg bb ct (maxAttemptsOf c)
              (Z.to_nat (maxAttemptsOf c)) 1 None None s1) as [res s'].
  destruct H as [Hres [l2 [E2 [C2 W2]]]]. split; [rewrite Hres, Huu; reflexivity|].
  exists (EvEncode :: l1 ++ l2). split; [|split].
  - rewrite E2, E1, <- app_assoc. reflexivity.
  - simpl. rewrite ExecFacts.count_app_attempts, C1, C2. reflexivity.
  - simpl. rewrite count_waits_app, W1, W2. lia.
Qed.

End T.
End ErrFacts.

Module BuildFacts.
Import Errors Retry Exec RateLimit Build Views HdrFacts AH Hdr.

Section B.
Context {W : Type}.
Context (urlParse : string -> option GoErr).

Lemma Set_canonical h k v : canonicalKeys h -> canonicalKeys (Set_ h k v).
Proof.
  intros H k' vs Hl. unfold Set_ in Hl. unfold Header in *.
  destruct (decide (k' = CanonicalMIMEHeaderKey k)) as [->|Hne].
  - apply Canonical_idem.
  - rewrite lookup_insert_ne in Hl by congruence. eapply H; exact Hl.
Qed.

Lemma foldl_Set_canonical kvs : forall h, canonicalKeys h ->
  canonicalKeys (foldl (fun h kv => Set_ h kv.1 kv.2) h kvs).
Proof.
  induction kvs as [|kv kvs IH]; intros h H; [exact H|]. simpl. apply IH, Set_canonical, H.
Qed.

Lemma setHeaders_spec kvs : forall (c : @ClientS W),
  setHeaders kvs c =
  if existsb (fun kv => String.eqb kv.1 "") kvs then inr (ErrText "header key cannot be empty")
  else inl (set_headers (foldl (fun h kv => Set_ h kv.1 kv.2) (c_headers c) kvs) c).
Proof.
  induction kvs as [|[k v] kvs IH]; intros c.
  - destruct c; reflexivity.
  - simpl. destruct (String.eqb k ""); [reflexivity|]. rewrite IH. simpl.
    destruct (existsb _ kvs); [reflexivity|]. destruct c; reflexivity.
Qed.

Ltac fin Hb Hh :=
  simpl; rewrite ?app_nil_r; repeat split; auto; simpl in *;
  try (match goal with H : c_baseURL _ = Some _ |- _ => destruct (Hb _ H); auto end).

Lemma opt_step (o : @Opt W) c c' : optOf urlParse o c = inl c' -> clientInv urlParse c ->
  clientInv urlParse c' /\ c_middlewares c' = c_middlewares c ++ registered [o] /\
  c_retryPolicy c' = lastRetryFrom (c_retryPolicy c) [o].
Proof.
  intros Ho [Ht [Hct [Hh Hb]]].
  destruct o as [u|h|d|k v|order|ua|ct|p|now n d|mw];
    cbv [optOf WithBaseURL WithHTTPClient WithTimeout WithHeader WithUserAgent
         WithDefaultContentType WithRetry WithRateLimit WithMiddleware] in Ho.
  - destruct (String.eqb_spec u "") as [|Hu]; [discriminate|].
    destruct (urlParse u) eqn:Hp; [discriminate|]. injection Ho as <-. simpl.
    rewrite app_nil_r. split; [|split; reflexivity]. split; [exact Ht|]. split; [exact Hct|].
    split; [exact Hh|]. intros u' E. simpl in E. injection E as <-. auto.
  - destruct h; [|discriminate]. injection Ho as <-. fin Hb Hh.
  - destruct (Z.leb_spec d 0); [discriminate|]. injection Ho as <-. fin Hb Hh.
  - destruct (String.eqb k ""); [discriminate|]. injection Ho as <-. fin Hb Hh.
    apply Set_canonical, Hh.
  - unfold WithHeaders in Ho. rewrite setHeaders_spec in Ho.
    destruct (existsb _ order); [discriminate|]. injection Ho as <-. fin Hb Hh.
    apply foldl_Set_canonical, Hh.
  - injection Ho as <-. fin Hb Hh. apply Set_canonical, Hh.
  - destruct (String.eqb_spec ct ""); [discriminate|]. injection Ho as <-. fin Hb Hh.
  - injection Ho as <-. fin Hb Hh.
  - injection Ho as <-. fin Hb Hh.
  - destruct mw as [m|]; [|discriminate]. injection Ho as <-. fin Hb Hh.
Qed.

Lemma registered_cons (o : @Opt W) os : registered (o :: os) = registered [o] ++ registered os.
Proof. destruct o as [| | | | | | | | |[m|]]; reflexivity. Qed.

Lemma lastRetryFrom_cons (o : @Opt W) p os :
  lastRetryFrom p (o :: os) = lastRetryFrom (lastRetryFrom p [o]) os.
Proof. destruct o; reflexivity. Qed.

Lemma applyOpts_inv os : forall (c c' : @ClientS W),
  applyOpts (map (optOf urlParse) os) c = inl c' -> clientInv urlParse c ->
  clientInv urlParse c' /\ c_middlewares c' = c_middlewares c ++ registered os /\
  c_retryPolicy c' = lastRetryFrom (c_retryPolicy c) os.
Proof.
  induction os as [|o os IH]; intros c c' Ha Hc.
  - injection Ha as <-. rewrite app_nil_r. auto.
  - simpl in Ha. destruct (optOf urlParse o c) as [c1|e] eqn:Ho; [|discriminate].
    destruct (opt_step o c c1 Ho Hc) as [Hc1 [Hm1 Hr1]].
    destruct (IH c1 c' Ha Hc1) as [Hc' [Hm' Hr']].
    split; [exact Hc'|]. split.
    + rewrite Hm', Hm1, (registered_cons o os), app_assoc. reflexivity.
    + rewrite Hr', Hr1, (lastRetryFrom_cons o _ os). reflexivity.
Qed.

Lemma newClient_inv : clientInv urlParse (newClient (W:=W)).
Proof.
  split; [simpl; unfold Second; lia|]. split; [discriminate|]. split.
  - apply Set_canonical, Set_canonical. intros k vs H. unfold Header in *.
    rewrite lookup_empty in H. discriminate.
  - intros u H. discriminate.
Qed.

(** X8 (New and the client options): a client New returns has a positive
    timeout, a non-empty default content type, canonical header keys and a
    non-empty base URL that url.Parse accepted; its middlewares are those
    registered by the WithMiddleware options in order, and its retry policy
    is the one of the last WithRetry (nil when there is none). *)
Theorem New_invariants (os : list (@Opt W)) (c : @ClientS W) :
  New (map (optOf urlParse) os) = inl c ->
  0 < c_timeout c /\ c_defaultContentType c <> "" /\ canonicalKeys (c_headers c) /\
  (exists u, c_baseURL c = Some u /\ u <> "" /\ urlParse u = None) /\
  c_middlewares c = registered os /\ c_retryPolicy c = lastRetryFrom None os.
Proof.
  unfold New. destruct (applyOpts _ newClient) as [c'|e] eqn:Ha; [|discriminate].
  destruct (c_baseURL c') as [u|] eqn:Hu; [|discriminate]. intros [= <-].
  destruct (applyOpts_inv os newClient c' Ha newClient_inv) as [[Ht [Hct [Hh Hb]]] [Hm Hr]].
  repeat split; auto.
  exists u. split; [exact Hu|]. apply Hb. exact Hu.
Qed.

Lemma applyOpts_app (l1 l2 : list (@ClientOption W)) c :
  applyOpts (l1 ++ l2) c = match applyOpts l1 c with inl c' => applyOpts l2 c' | inr e => inr e end.
Proof.
  revert c. induction l1 as [|o l1 IH]; intros c; [reflexivity|].
  simpl. destruct (o c); [apply IH|reflexivity].
Qed.

(** X9 (New): the first option that fails stops New with that option's
    error; the options after it are not run. *)
Theorem New_first_error (pre : list (@ClientOption W)) opt post c e :
  applyOpts pre newClient = inl c -> opt c = inr e -> New (pre ++ opt :: post) = inr e.
Proof.
  intros Hp Ho. unfold New. rewrite applyOpts_app, Hp. simpl. rewrite Ho. reflexivity.
Qed.

Lemma applyOpts_no_base (os : list (@Opt W)) : forall (c c' : @ClientS W),
  (forall u, ~ In (OBaseURL u) os) ->
  applyOpts (map (optOf urlParse) os) c = inl c' -> c_baseURL c' = c_baseURL c.
Proof.
  induction os as [|o os IH]; intros c c' Hn Ha; [injection Ha as <-; reflexivity|].
  simpl in Ha. destruct (optOf urlParse o c) as [c1|e] eqn:Ho; [|discriminate].
  rewrite (IH c1 c') by (auto || (intros u Hin; apply (Hn u); right; exact Hin)).
  destruct o as [u|h|d|k v|order|ua|ct|p|now n d|mw];
    cbv [optOf WithBaseURL WithHTTPClient WithTimeout WithHeader WithUserAgent
         WithDefaultContentType WithRetry WithRateLimit WithMiddleware] in Ho.
  - exfalso. apply (Hn u). left. reflexivity.
  - destruct h; [|discriminate]. injection Ho as <-. reflexivity.
  - destruct (d <=? 0); [discriminate|]. injection Ho as <-. reflexivity.
  - destruct (String.eqb k ""); [discriminate|]. injection Ho as <-. reflexivity.
  - unfold WithHeaders in Ho. rewrite setHeaders_spec in Ho.
    destruct (existsb _ order); [discriminate|]. injection Ho as <-. reflexivity.
  - injection Ho as <-. reflexivity.
  - destruct (String.eqb ct ""); [discriminate|]. injection Ho as <-. reflexivity.
  - injection Ho as <-. reflexivity.
  - injection Ho as <-. reflexivity.
  - destruct mw; [|discriminate]. injection Ho as <-. reflexivity.
Qed.

(** X10 (New): without a WithBaseURL option New fails. *)
Theorem New_requires_base_url (os : list (@Opt W)) :
  (forall u, ~ In (OBaseURL u) os) -> exists e, New (map (optOf urlParse) os) = inr e.
Proof.
  intros Hn. unfold New. destruct (applyOpts _ newClient) as [c'|e] eqn:Ha; [|exists e; reflexivity].
  rewrite (applyOpts_no_base os newClient c' Hn Ha). simpl. eexists. reflexivity.
Qed.

Lemma insert_Set_commute h k1 v1 k2 v2 : CanonicalMIMEHeaderKey k1 <> CanonicalMIMEHeaderKey k2 ->
  Set_ (Set_ h k1 v1) k2 v2 = Set_ (Set_ h k2 v2) k1 v1.
Proof. intros H. unfold Set_, Header in *. apply insert_insert_ne. congruence. Qed.

Lemma foldl_Set_perm (l1 l2 : list (string * string)) :
  l1 ≡ₚ l2 -> NoDup (map (fun kv => CanonicalMIMEHeaderKey kv.1) l1) ->
  forall h, foldl (fun h kv => Set_ h kv.1 kv.2) h l1 = foldl (fun h kv => Set_ h kv.1 kv.2) h l2.
Proof.
  induction 1 as [|x l l' Hp IH|x y l|l l' l'' Hp1 IH1 Hp2 IH2]; intros Hnd h.
  - reflexivity.
  - simpl. apply IH. simpl in Hnd. apply NoDup_cons in Hnd as [_ Hnd]. exact Hnd.
  - simpl. simpl in Hnd. apply NoDup_cons in Hnd as [Hy Hnd]. apply NoDup_cons in Hnd as [Hx _].
    rewrite insert_Set_commute; [reflexivity|].
    intros E. apply Hy. rewrite E. left.
  - rewrite (IH1 Hnd h). apply IH2.
    apply NoDup_ListNoDup. eapply Permutation_NoDup; [apply Permutation_map; exact Hp1 | apply NoDup_ListNoDup; exact Hnd].
Qed.

Lemma existsb_perm {A} (f : A -> bool) (l1 l2 : list A) : l1 ≡ₚ l2 -> existsb f l1 = existsb f l2.
Proof.
  induction 1; simpl; try congruence.
  destruct (f x), (f y); reflexivity.
Qed.

(** X11 (WithHeaders): when no two keys of the map have the same canonical
    form, the result of WithHeaders does not depend on the order in which
    the map is ranged over. *)
Theorem WithHeaders_order_independent (l1 l2 : list (string * string)) (c : @ClientS W) :
  l1 ≡ₚ l2 -> NoDup (map (fun kv => CanonicalMIMEHeaderKey kv.1) l1) ->
  WithHeaders l1 c = WithHeaders l2 c.
Proof.
  intros Hp Hnd. unfold WithHeaders. rewrite !setHeaders_spec.
  rewrite (existsb_perm _ _ _ Hp). destruct (existsb _ l2); [reflexivity|].
  rewrite (foldl_Set_perm l1 l2 Hp Hnd). reflexivity.
Qed.

(** X12 (WithHeader): when WithHeader succeeds the key is non-empty, and
    afterwards the client's header for any key with the same canonical form
    is the new value while every other header is unchanged. *)
Theorem WithHeader_Get key value (c c' : @ClientS W) :
  WithHeader key value c = inl c' ->
  key <> "" /\
  forall k, Get (c_headers c') k =
            if String.eqb (CanonicalMIMEHeaderKey key) (CanonicalMIMEHeaderKey k) then value
            else Get (c_headers c) k.
Proof.
  unfold WithHeader. destruct (String.eqb_spec key "") as [|Hk]; [discriminate|].
  intros [= <-]. split; [exact Hk|]. intros k. simpl. apply Get_Set.
Qed.

End B.
End BuildFacts.

Module BuilderFacts.
Import Errors Exec Obs Builder Views HdrFacts Hdr.

Section BF.
Context {W ReaderId FormValues JSONValue Target : Type}.

Lemma Request_inv (c : @Client W) :
  builderInv (Request (ReaderId:=ReaderId) (FormValues:=FormValues) (JSONValue:=JSONValue) c).
Proof.
  split; intros k vs H; unfold Request, mkBuilder in H; simpl in H; unfold Header in *;
    rewrite lookup_empty in H; discriminate.
Qed.

Lemma applyOp_inv (b : @RequestBuilder W ReaderId FormValues JSONValue) op : builderInv b -> builderInv (applyOp b op).
Proof.
  intros [Hh Hq]. destruct op as [m|p|body|k v|k v|d|ct];
    cbv [applyOp builderInv Method Path Body Header_ Query Timeout ContentType mkBuilder
         rb_headers rb_query];
    try (split; assumption).
  - split; [|exact Hq]. intros k' vs H. unfold Set_, Header in *.
    destruct (decide (CanonicalMIMEHeaderKey k = k')) as [<-|Hne].
    + rewrite lookup_insert_eq in H. injection H as <-. split; [apply Canonical_idem|eexists; reflexivity].
    + rewrite lookup_insert_ne in H by exact Hne. apply Hh. exact H.
  - split; [exact Hh|]. intros k' vs H.
    destruct (decide (k = k')) as [<-|Hne].
    + rewrite lookup_insert_eq in H. injection H as <-. destruct (default _ _); discriminate.
    + rewrite lookup_insert_ne in H by exact Hne. apply Hq with k'. exact H.
Qed.

Lemma fold_applyOp_inv ops : forall (b : @RequestBuilder W ReaderId FormValues JSONValue), builderInv b -> builderInv (fold_left applyOp ops b).
Proof.
  induction ops as [|op ops IH]; intros b H; [exact H|]. simpl. apply IH, applyOp_inv, H.
Qed.

Lemma runOpts_app o1 o2 cfg : runOpts (o1 ++ o2) cfg = runOpts o2 (runOpts o1 cfg).
Proof. unfold runOpts. apply fold_left_app. Qed.

Lemma header_values k vs : forall cfg,
  runOpts (map (fun v => WithRequestHeader k v) vs) cfg =
  with_headers cfg (fold_left (fun h v => Set_ h k v) vs (cfg_headers cfg)).
Proof.
  induction vs as [|v vs IH]; intros cfg; [destruct cfg; reflexivity|].
  simpl. unfold runOpts in *. simpl. rewrite IH. reflexivity.
Qed.

Lemma header_phase (hs : list (string * list string)) : forall cfg,
  runOpts (flat_map (fun kv => map (fun v => WithRequestHeader kv.1 v) kv.2) hs) cfg =
  with_headers cfg (fold_left (fun h kv => fold_left (fun a v => Set_ a kv.1 v) kv.2 h) hs (cfg_headers cfg)).
Proof.
  induction hs as [|[k vs] hs IH]; intros cfg; [destruct cfg; reflexivity|].
  simpl. rewrite runOpts_app, header_values, IH. reflexivity.
Qed.

Lemma query_values k vs : forall cfg, vs <> [] ->
  runOpts (map (fun v => WithQuery k v) vs) cfg =
  with_query cfg (<[k := default [] (cfg_query cfg !! k) ++ vs]> (cfg_query cfg)).
Proof.
  induction vs as [|v vs IH]; intros cfg Hne; [congruence|].
  destruct vs as [|v' vs'].
  - destruct cfg; reflexivity.
  - change (runOpts (map (fun v => WithQuery k v) (v :: v' :: vs')) cfg)
      with (runOpts (map (fun v => WithQuery k v) (v' :: vs')) (WithQuery k v cfg)).
    rewrite IH by discriminate. simpl.
    unfold with_query. simpl. rewrite lookup_insert_eq, insert_insert_eq. simpl.
    rewrite <- app_assoc. reflexivity.
Qed.

Lemma query_phase (qs : list (string * list string)) : forall cfg,
  NoDup qs.*1 -> (forall k vs, (k, vs) ∈ qs -> vs <> []) ->
  (forall k, k ∈ qs.*1 -> cfg_query cfg !! k = None) ->
  runOpts (flat_map (fun kv => map (fun v => WithQuery kv.1 v) kv.2) qs) cfg =
  with_query cfg (list_to_map qs ∪ cfg_query cfg).
Proof.
  induction qs as [|[k vs] qs IH]; intros cfg Hnd Hne Hnone.
  - simpl. rewrite (left_id_L ∅ (∪)). destruct cfg; reflexivity.
  - simpl. rewrite runOpts_app, query_values by (eapply Hne; left).
    simpl in Hnd. apply NoDup_cons in Hnd as [Hk Hnd].
    rewrite (Hnone k) by (left). simpl.
    rewrite IH; [|exact Hnd|intros; eapply Hne; right; eassumption|].
    + unfold with_query. simpl. f_equal.
      rewrite <- insert_union_r; [apply insert_union_l|].
      apply not_elem_of_list_to_map_1. exact Hk.
    + intros k' Hin. simpl. rewrite lookup_insert_ne.
      * apply Hnone. right. exact Hin.
      * intros ->. exact (Hk Hin).
Qed.

Lemma header_list (l : list (string * list string)) : forall (h : gmap string (list string)),
  NoDup l.*1 -> (forall k vs, (k, vs) ∈ l -> CanonicalMIMEHeaderKey k = k /\ exists v, vs = [v]) ->
  fold_left (fun h kv => fold_left (fun a v => Set_ a kv.1 v) kv.2 h) l h =
  (list_to_map l : gmap string (list string)) ∪ h.
Proof.
  induction l as [|[k vs] l IH]; intros h Hnd Hc.
  - simpl. rewrite (left_id_L ∅ (∪)). reflexivity.
  - simpl in Hnd. apply NoDup_cons in Hnd as [Hk Hnd].
    destruct (Hc k vs ltac:(left)) as [Hck [v ->]]. simpl.
    rewrite IH; [|exact Hnd|intros; eapply Hc; right; eassumption].
    unfold Set_. rewrite Hck. unfold Header.
    rewrite <- insert_union_r; [apply insert_union_l|].
    apply not_elem_of_list_to_map_1. exact Hk.
Qed.

Lemma builder_config_aux (c : @Client W) (ops : list (@BuilderOp ReaderId FormValues JSONValue))
    (hs qs : list (string * list string)) :
  let b := fold_left applyOp ops (Request c) in
  hs ≡ₚ map_to_list (rb_headers b) -> qs ≡ₚ map_to_list (rb_query b) ->
  cfgOf (toRequestOptions b hs qs) =
  {| cfg_timeout := if rb_timeout b >? 0 then rb_timeout b else 0;
     cfg_headers := rb_headers b; cfg_query := rb_query b;
     cfg_contentType := rb_contentType b |}.
Proof.
  intros b Hhs Hqs.
  destruct (fold_applyOp_inv ops (Request c) (Request_inv c)) as [Hh Hq]. fold b in Hh, Hq.
  assert (Hnh : NoDup hs.*1).
  { rewrite Hhs. apply NoDup_fst_map_to_list. }
  assert (Hnq : NoDup qs.*1).
  { rewrite Hqs. apply NoDup_fst_map_to_list. }
  change (cfgOf (toRequestOptions b hs qs)) with (runOpts (toRequestOptions b hs qs) newRequestConfig).
  unfold toRequestOptions. rewrite !runOpts_app, header_phase.
  rewrite query_phase; [| exact Hnq
    | intros k vs Hin; rewrite Hqs in Hin; apply elem_of_map_to_list in Hin; eapply Hq; exact Hin
    | intros k _; reflexivity].
  simpl. unfold Header in *.
  rewrite header_list; [| exact Hnh
    | intros k vs Hin; rewrite Hhs in Hin; apply elem_of_map_to_list in Hin; eapply Hh; exact Hin].
  rewrite !(right_id_L ∅ (∪)).
  rewrite (list_to_map_proper hs (map_to_list (rb_headers b))) by assumption.
  rewrite (list_to_map_proper qs (map_to_list (rb_query b))) by assumption.
  rewrite !list_to_map_to_list.
  destruct (rb_timeout b >? 0); destruct (String.eqb_spec (rb_contentType b) "") as [E|E];
    simpl; rewrite ?E; unfold with_query, with_headers, WithRequestTimeout, WithContentType;
    simpl; f_equal; apply list_to_map_to_list.
Qed.

(** X13 (RequestBuilder.toRequestOptions): running the builder's options on
    a fresh request config gives the builder's headers and query, its
    content type, and its timeout if positive (0 otherwise), whatever the
    order in which its maps are ranged over. *)
Theorem builder_config (c : @Client W) (ops : list (@BuilderOp ReaderId FormValues JSONValue))
    (hs qs : list (string * list string)) :
  let b := fold_left applyOp ops (Request c) in
  hs ≡ₚ map_to_list (rb_headers b) -> qs ≡ₚ map_to_list (rb_query b) ->
  cfgOf (toRequestOptions b hs qs) =
  {| cfg_timeout := if rb_timeout b >? 0 then rb_timeout b else 0;
     cfg_headers := rb_headers b; cfg_query := rb_query b;
     cfg_contentType := rb_contentType b |}.
Proof. exact (builder_config_aux c ops hs qs). Qed.

Context (env : @Env W ReaderId FormValues JSONValue Target).

Lemma doWithOptions_cfg c ctx method path body result o1 o2 :
  cfgOf o1 = cfgOf o2 ->
  doWithOptions env c ctx method path body result o1 = doWithOptions env c ctx method path body result o2.
Proof.
  intros H. unfold doWithOptions, prepare.
  change (fold_left (fun cfg opt => opt cfg) o1 newRequestConfig) with (cfgOf o1).
  change (fold_left (fun cfg opt => opt cfg) o2 newRequestConfig) with (cfgOf o2).
  rewrite H. reflexivity.
Qed.

(** X14 (RequestBuilder.Do and DoInto): the result of Do and of DoInto
    does not depend on the order in which the builder's header and query
    maps are ranged over. *)
Theorem Do_order_independent (c : @Client W) (ops : list (@BuilderOp ReaderId FormValues JSONValue))
    ctx (result : Target) (hs qs hs' qs' : list (string * list string)) :
  let b := fold_left applyOp ops (Request c) in
  hs ≡ₚ map_to_list (rb_headers b) -> hs' ≡ₚ map_to_list (rb_headers b) ->
  qs ≡ₚ map_to_list (rb_query b) -> qs' ≡ₚ map_to_list (rb_query b) ->
  Do env b ctx hs qs = Do env b ctx hs' qs' /\
  DoInto env b ctx result hs qs = DoInto env b ctx result hs' qs'.
Proof.
  intros b H1 H2 H3 H4.
  assert (E : cfgOf (toRequestOptions b hs qs) = cfgOf (toRequestOptions b hs' qs')).
  { etransitivity; [apply (builder_config_aux c ops hs qs H1 H3)|]. symmetry. apply (builder_config_aux c ops hs' qs' H2 H4). }
  split; unfold Do, DoInto; rewrite (doWithOptions_cfg _ _ _ _ _ _ _ _ E); reflexivity.
Qed.

End BF.
End BuilderFacts.

Module RedactFacts.
Import Hdr Redact.

Lemma scan_no_upper s : scan s = (true, false) -> lower_ascii s = s.
Proof.
  induction s as [|c s IH]; intros H; [reflexivity|].
  cbn [scan] in H. destruct (RuneSelf <=? nat_of_ascii c)%nat; [discriminate H|].
  destruct (scan s) as [a u]. injection H as -> Hu.
  apply orb_false_iff in Hu as [Hc Hu]. subst u. cbn [lower_ascii].
  rewrite Hc, IH by reflexivity. reflexivity.
Qed.

Lemma ToLower_ascii ul s : isASCII s = true -> ToLower ul s = lower_ascii s.
Proof.
  unfold isASCII, ToLower. destruct (scan s) as [a u] eqn:E. simpl. intros ->.
  destruct u; simpl; [reflexivity|]. symmetry. apply scan_no_upper. exact E.
Qed.

Lemma defaults_ascii : Forall (fun h => isASCII h = true) defaultSensitiveHeaders.
Proof. repeat constructor. Qed.

Lemma sensitive_iff ul additional k :
  Forall (fun h => isASCII h = true) additional -> isASCII k = true ->
  (ToLower ul k ∈ sensitiveSet ul additional) <->
  existsb (fun h => String.eqb (lower_ascii h) (lower_ascii k)) (defaultSensitiveHeaders ++ additional) = true.
Proof.
  intros Ha Hk. unfold sensitiveSet. rewrite elem_of_list_to_set, list_elem_of_In, in_map_iff.
  rewrite existsb_exists. rewrite (ToLower_ascii ul k Hk).
  assert (HA : Forall (fun h => isASCII h = true) (defaultSensitiveHeaders ++ additional))
    by (apply Forall_app; split; [exact defaults_ascii | exact Ha]).
  split.
  - intros [h [Eh Hin]]. exists h. split; [exact Hin|].
    rewrite Forall_forall in HA. rewrite <- (ToLower_ascii ul h (HA h (proj2 (list_elem_of_In _ _) Hin))), Eh.
    apply String.eqb_refl.
  - intros [h [Hin Eh]]. exists h. split; [|exact Hin].
    rewrite Forall_forall in HA. rewrite (ToLower_ascii ul h (HA h (proj2 (list_elem_of_In _ _) Hin))).
    apply String.eqb_eq. exact Eh.
Qed.

(** X15 (LoggingMiddlewareWithRedaction, redactHeaders): for ASCII header
    names, the redacted view maps each present header to [REDACTED] when
    its name matches a default or an additional sensitive header ignoring
    ASCII case, and to its values joined by ", " otherwise; absent headers
    stay absent. *)
Theorem redactHeaders_lookup ul (headers : Header) additional k :
  Forall (fun h => isASCII h = true) additional -> isASCII k = true ->
  redactHeaders ul headers (sensitiveSet ul additional) !! k =
  (fun values =>
     if existsb (fun h => String.eqb (lower_ascii h) (lower_ascii k)) (defaultSensitiveHeaders ++ additional)
     then "[REDACTED]" else Join values ", ") <$> headers !! k.
Proof.
  intros Ha Hk. unfold redactHeaders, Header in *. rewrite map_lookup_imap.
  destruct (existsb _ (defaultSensitiveHeaders ++ additional)) eqn:E.
  - rewrite bool_decide_eq_true_2 by (apply sensitive_iff; assumption).
    destruct (headers !! k); reflexivity.
  - rewrite bool_decide_eq_false_2 by (rewrite sensitive_iff by assumption; rewrite E; discriminate).
    destruct (headers !! k); reflexivity.
Qed.

End RedactFacts.

Module ExtraWitnesses.
Import Errors Retry StM Exec Obs Views Build Builder Redact Fixtures Samples Hdr.

Lemma attempt_headers_witness :
  Get (attemptHeaders (toClient (W:=Z) newClient) (cfgOf [WithRequestHeader "accept" "text/csv"]) ""
         (@None (@BodyValue unit unit unit))) "Accept" = "text/csv".
Proof.
  pose proof (AH.attempt_headers (toClient (W:=Z) newClient) (cfgOf [WithRequestHeader "accept" "text/csv"]) ""
         (@None (@BodyValue unit unit unit)) "Accept"
         (AH.canonicalKeysb_sound (headers (toClient (W:=Z) newClient)) ltac:(vm_compute; reflexivity))
         (AH.canonicalKeysb_sound (cfg_headers (cfgOf [WithRequestHeader "accept" "text/csv"]))
            ltac:(vm_compute; reflexivity))) as E.
  cbv zeta in E. rewrite E. vm_compute. reflexivity.
Defined.

Lemma content_type_by_body_witness :
  Get (attemptHeaders (testClient None) newRequestConfig "application/x-www-form-urlencoded"
         (Some (@BodyForm unit unit unit tt))) "Content-Type" = "application/x-www-form-urlencoded".
Proof.
  apply (AH.content_type_by_body (serverEnv resp200) (testClient None) newRequestConfig (BodyForm tt)
           (Some (ReaderBytes (String.list_byte_of_string "")))); reflexivity.
Defined.

Lemma transport_failure_run_witness :
  let '(res, s') := doWithOptions failingEnv (testClient (Some (withMaxAttempts 3))) background "GET"
                      "/items" None None [] initial in
  res = (None, Some (wrapError refused "GET" "https://api.example.com/items")) /\
  exists l, snd s' = [] ++ l /\ count_attempts l = 3%nat /\ count_wait_events l = 2%nat.
Proof.
  exact (ErrFacts.transport_failure_run failingEnv (testClient (Some (withMaxAttempts 3))) background "GET"
           "/items" None None [] initial refused eq_refl eq_refl (fun _ => eq_refl) (fun _ _ => eq_refl)
           ltac:(vm_compute; discriminate) eq_refl).
Defined.

Lemma New_invariants_witness :
  exists c : @ClientS Z,
    New (map (optOf (fun _ => None))
           [OBaseURL "https://api.example.com"; OHeader "x-api-key" "k";
            ORetry (Some DefaultRetryPolicy); OMiddleware (Some (fun r => MwNext r MwReturn))]) = inl c /\
    c_retryPolicy c = Some DefaultRetryPolicy /\ canonicalKeys (c_headers c) /\ length (c_middlewares c) = 1%nat.
Proof.
  set (os := [OBaseURL "https://api.example.com"; OHeader "x-api-key" "k";
              ORetry (Some DefaultRetryPolicy); OMiddleware (Some (fun r : Exec.Request => @MwNext Z r MwReturn))]).
  set (c := match New (map (optOf (fun _ => None)) os) with inl c => c | inr _ => newClient end).
  assert (E : New (map (optOf (fun _ => None)) os) = inl c) by (vm_compute; reflexivity).
  destruct (BuildFacts.New_invariants (fun _ => None) os c E) as (_ & _ & Hk & _ & Hm & Hr).
  exists c. split; [exact E|]. split; [rewrite Hr; reflexivity|]. split; [exact Hk|].
  rewrite Hm. reflexivity.
Defined.

Lemma New_first_error_witness :
  New [WithBaseURL (fun _ => None) "https://api.example.com"; WithTimeout 0; WithUserAgent "x"] =
  inr (A:=@ClientS Z) (ErrText "timeout must be positive").
Proof.
  apply (BuildFacts.New_first_error [WithBaseURL (fun _ => None) "https://api.example.com"] (WithTimeout 0)
           [WithUserAgent "x"] (set_baseURL "https://api.example.com" newClient)); reflexivity.
Defined.

Lemma New_requires_base_url_witness :
  exists e, New (map (optOf (W:=Z) (fun _ => None)) [OTimeout 5; OUserAgent "x"]) = inr e.
Proof.
  apply BuildFacts.New_requires_base_url. intros u [H|[H|[]]]; discriminate.
Defined.

Lemma WithHeaders_order_independent_witness :
  WithHeaders (W:=Z) [("Accept", "text/csv"); ("X-Trace", "1")] newClient =
  WithHeaders [("X-Trace", "1"); ("Accept", "text/csv")] newClient.
Proof.
  apply BuildFacts.WithHeaders_order_independent.
  - apply (bool_decide_unpack _). vm_compute. reflexivity.
  - apply (bool_decide_unpack _). vm_compute. reflexivity.
Defined.

Lemma WithHeader_Get_witness :
  "x-api-key" <> "" /\
  Get (c_headers (set_headers (Set_ (c_headers (newClient (W:=Z))) "x-api-key" "k") (newClient (W:=Z)))) "X-API-KEY" = "k" /\
  Get (c_headers (set_headers (Set_ (c_headers (newClient (W:=Z))) "x-api-key" "k") (newClient (W:=Z)))) "accept" =
    "application/json".
Proof.
  destruct (BuildFacts.WithHeader_Get (W:=Z) "x-api-key" "k" newClient
              (set_headers (Set_ (c_headers newClient) "x-api-key" "k") newClient) eq_refl) as [Hne H].
  split; [exact Hne|]. split; rewrite H; vm_compute; reflexivity.
Defined.

Lemma builder_config_witness :
  cfgOf (toRequestOptions sampleBuilder (reverse (map_to_list (rb_headers sampleBuilder)))
           (map_to_list (rb_query sampleBuilder))) =
  {| cfg_timeout := 5; cfg_headers := rb_headers sampleBuilder; cfg_query := rb_query sampleBuilder;
     cfg_contentType := "text/plain" |}.
Proof.
  etransitivity.
  - apply (BuilderFacts.builder_config (testClient None) sampleOps); [apply reverse_Permutation|reflexivity].
  - reflexivity.
Defined.

Lemma Do_order_independent_witness :
  Do (serverEnv resp200) sampleBuilder background (map_to_list (rb_headers sampleBuilder))
     (map_to_list (rb_query sampleBuilder)) =
  Do (serverEnv resp200) sampleBuilder background (reverse (map_to_list (rb_headers sampleBuilder)))
     (reverse (map_to_list (rb_query sampleBuilder))) /\
  DoInto (serverEnv resp200) sampleBuilder background tt (map_to_list (rb_headers sampleBuilder))
     (map_to_list (rb_query sampleBuilder)) =
  DoInto (serverEnv resp200) sampleBuilder background tt (reverse (map_to_list (rb_headers sampleBuilder)))
     (reverse (map_to_list (rb_query sampleBuilder))).
Proof.
  apply (BuilderFacts.Do_order_independent (serverEnv resp200) (testClient None) sampleOps background tt);
    [reflexivity|apply reverse_Permutation|reflexivity|apply reverse_Permutation].
Defined.

Lemma redactHeaders_lookup_witness :
  redactHeaders (fun s => s) (<["Authorization" := ["Bearer t"]]> (<["Accept" := ["a"; "b"]]> ∅))
    (sensitiveSet (fun s => s) ["X-Session"]) !! "Authorization" = Some "[REDACTED]" /\
  redactHeaders (fun s => s) (<["Authorization" := ["Bearer t"]]> (<["Accept" := ["a"; "b"]]> ∅))
    (sensitiveSet (fun s => s) ["X-Session"]) !! "Accept" = Some "a, b".
Proof.
  split.
  - rewrite (RedactFacts.redactHeaders_lookup (fun s => s) (<["Authorization" := ["Bearer t"]]> (<["Accept" := ["a"; "b"]]> ∅))
               ["X-Session"] "Authorization" ltac:(repeat constructor) eq_refl).
    vm_compute. reflexivity.
  - rewrite (RedactFacts.redactHeaders_lookup (fun s => s) (<["Authorization" := ["Bearer t"]]> (<["Accept" := ["a"; "b"]]> ∅))
               ["X-Session"] "Accept" ltac:(repeat constructor) eq_refl).
    vm_compute. reflexivity.
Defined.

End ExtraWitnesses.
